(** * QtORM model layer (qmodel.cpp): shallow embedding and verified properties

    The model keeps an ordered vector of field handles, a designated
    primary-key handle and a pending batch of row snapshots, and builds
    the text and the bound values of INSERT, UPDATE and DELETE statements.

    Field objects are shared handles ([QField] holds a pointer to a
    [QFieldPrivate]); the embedding keeps the private records in a store
    and lets [fields] and [primaryKey] alias the same cell, as the source
    does.  The database is external: identifier escaping is a section
    variable, and every executed statement receives its outcome ([Reply])
    from the environment.  What C++ leaves undefined (an invalid handle, an
    index outside a list) is a [Fault].

    Contents: strings and [QString::arg]; fields, store and model; the
    operations of qmodel.cpp; views and concrete models; closed forms of
    the loops and of the statement templates; [init]; [saveBatch]; [save]
    and [remove]; what every operation keeps; the batch across a change of
    the key's nullness; further properties: factories and [init],
    snapshots, [resetModified], how the operations compose, what they never
    do, [createTableSql] and [getForeignKeys]. *)

From Stdlib Require Import ZArith Ascii String.
From stdpp Require Import base tactics option list strings.

Set Default Proof Using "Type".
Local Open Scope Z_scope.
Local Open Scope nat_scope.

(** ** Strings (the part of QString the model uses) *)

Abbreviation QChar := ascii.
Abbreviation QString := (list ascii).

(** A literal, written as a Rocq string. *)
Definition q (s : string) : QString := list_ascii_of_string s.

Module QStr.

(** [QString::repeated(times)]. *)
Definition repeated (s : QString) (times : nat) : QString :=
  concat (replicate times s).

(** [QString::resize(size)] when it shrinks: the first [size] characters
    are kept.  The source only calls it with [size() - 2]. *)
Definition resize (s : QString) (size : nat) : QString := take size s.

Definition is_percent (c : QChar) : bool := Ascii.eqb c "%"%char.
Definition is_L (c : QChar) : bool := Ascii.eqb c "L"%char.
Definition digitValue (c : QChar) : option nat := Ascii.is_nat c.

(** [QString::arg(a)]: the string is cut into literal characters and
    place markers ([%n], [%nn], [%Ln], [%Lnn]); every occurrence of the
    lowest-numbered marker is replaced by [a]. *)
Inductive piece :=
| Lit (c : QChar)
| Escape (n : nat) (text : QString).

Fixpoint findArgEscapes (s : QString) : list piece :=
  match s with
  | [] => []
  | c :: rest =>
    if is_percent c then
      match rest with
      | [] => [Lit c]
      | c1 :: rest1 =>
        if is_L c1 then
          match rest1 with
          | [] => [Lit c; Lit c1]
          | c2 :: rest2 =>
            match digitValue c2 with
            | None => Lit c :: Lit c1 :: findArgEscapes rest1
            | Some d =>
              match rest2 with
              | [] => [Escape d [c; c1; c2]]
              | c3 :: rest3 =>
                match digitValue c3 with
                | Some d' =>
                  Escape (10 * d + d') [c; c1; c2; c3] :: findArgEscapes rest3
                | None => Escape d [c; c1; c2] :: findArgEscapes rest2
                end
              end
            end
          end
        else
          match digitValue c1 with
          | None => Lit c :: findArgEscapes rest
          | Some d =>
            match rest1 with
            | [] => [Escape d [c; c1]]
            | c2 :: rest2 =>
              match digitValue c2 with
              | Some d' =>
                Escape (10 * d + d') [c; c1; c2] :: findArgEscapes rest2
              | None => Escape d [c; c1] :: findArgEscapes rest1
              end
            end
          end
      end
    else Lit c :: findArgEscapes rest
  end.

Fixpoint min_escape (ps : list piece) : option nat :=
  match ps with
  | [] => None
  | Lit _ :: r => min_escape r
  | Escape n _ :: r =>
    Some (match min_escape r with None => n | Some m => Nat.min n m end)
  end.

Fixpoint replaceArgEscapes (ps : list piece) (n : nat) (a : QString) : QString :=
  match ps with
  | [] => []
  | Lit c :: r => c :: replaceArgEscapes r n a
  | Escape k text :: r =>
    (if Nat.eqb k n then a else text) ++ replaceArgEscapes r n a
  end.

Definition arg (s a : QString) : QString :=
  let ps := findArgEscapes s in
  match min_escape ps with
  | None => s
  | Some n => replaceArgEscapes ps n a
  end.

(** Text that carries no place marker at all. *)
Definition plain (s : QString) : bool := forallb (fun c => negb (is_percent c)) s.

(** [sep]-separated concatenation, the closed form of the loops that
    emit a separator before every element but the first. *)
Fixpoint join (sep : QString) (l : list QString) : QString :=
  match l with
  | [] => []
  | [x] => x
  | x :: r => x ++ sep ++ join sep r
  end.

End QStr.

(** ** Values, fields and the field store *)

Inductive QVariant :=
| Invalid
| VInt (z : Z)
| VString (s : QString).

Inductive FieldType := StringField | IntField | DoubleField | DateTimeField.

(** Modelled from the spec: QFieldPrivate, the shared state behind a
    [QField] handle (qfield.h and qfield_p.h are not part of this file's
    sources).  Attributes as listed by the field contract: name,
    nullability, primary-key flag, auto-increment flag, modified flag and
    current value; [kind] records which factory built the field. *)
Record QFieldPrivate := mkFieldPrivate {
  name : QString;
  kind : FieldType;
  is_null : bool;
  is_primary_key : bool;
  is_auto_increment : bool;
  is_modified : bool;
  value : QVariant
}.

(** A [QField] is a handle: [None] is the default-constructed, invalid
    field ([d == 0]); [Some p] points at cell [p] of the store.  Copies of
    a handle share the cell. *)
Abbreviation QField := (option nat).
Abbreviation Store := (list QFieldPrivate).

Definition isValid (f : QField) : bool :=
  match f with Some _ => true | None => false end.

(** ** Faults and results *)

(** What the C++ leaves undefined: using an invalid handle, and indexing a
    list outside its bounds ([QList::at]). *)
Inductive fault :=
| NullField
| OutOfRange (index size : nat).

Inductive result (A : Type) :=
| Ok (a : A)
| Fault (e : fault).
Arguments Ok {A} a.
Arguments Fault {A} e.

Global Instance result_ret : MRet result := fun A a => Ok a.
Global Instance result_bind : MBind result := fun A B f m =>
  match m with Ok a => f a | Fault e => Fault e end.

Definition deref (st : Store) (f : QField) : result QFieldPrivate :=
  match f with
  | None => Fault NullField
  | Some p =>
    match st !! p with
    | Some x => Ok x
    | None => Fault NullField
    end
  end.

(** In-place mutation through a handle. *)
Definition update (g : QFieldPrivate -> QFieldPrivate) (f : QField) (st : Store)
  : result Store :=
  match f with
  | None => Fault NullField
  | Some p =>
    match st !! p with
    | Some x => Ok (<[p := g x]> st)
    | None => Fault NullField
    end
  end.

(** [QList::at(i)]. *)
Definition at_ {A} (l : list A) (i : nat) : result A :=
  match l !! i with
  | Some v => Ok v
  | None => Fault (OutOfRange i (length l))
  end.

(** Modelled from the spec: the setters of the field contract
    ([setPrimaryKey], [setAutoIncrement], [setNull], [setModified]); each
    one writes its attribute and nothing else. *)
Definition setPrimaryKey (b : bool) (x : QFieldPrivate) : QFieldPrivate :=
  mkFieldPrivate (name x) (kind x) (is_null x) b (is_auto_increment x)
                 (is_modified x) (value x).
Definition setAutoIncrement (b : bool) (x : QFieldPrivate) : QFieldPrivate :=
  mkFieldPrivate (name x) (kind x) (is_null x) (is_primary_key x) b
                 (is_modified x) (value x).
Definition setNull (b : bool) (x : QFieldPrivate) : QFieldPrivate :=
  mkFieldPrivate (name x) (kind x) b (is_primary_key x) (is_auto_increment x)
                 (is_modified x) (value x).
Definition setModified (b : bool) (x : QFieldPrivate) : QFieldPrivate :=
  mkFieldPrivate (name x) (kind x) (is_null x) (is_primary_key x)
                 (is_auto_increment x) b (value x).

(** Modelled from the spec: a field as the factories build it: not yet
    persisted (null), no flag set, no value. *)
Definition new_field (nm : QString) (k : FieldType) : QFieldPrivate :=
  mkFieldPrivate nm k true false false false Invalid.

(** The insert statements leave out the primary key while it is null. *)
Definition skipped (x : QFieldPrivate) : bool :=
  is_primary_key x && is_null x.

(** ** The database side *)

Inductive IdentifierType := FieldName | TableName.

(** Outcome of executing one statement: [QSqlQuery::exec()] and
    [QSqlQuery::lastInsertId()]. *)
Record Reply := mkReply {
  exec_ok : bool;
  last_insert_id : QVariant
}.

(** What an operation does to the outside: a prepared statement executed
    with its bound values, or a line on the debug channel. *)
Inductive Event :=
| Exec (sql : QString) (bound : list QVariant)
| Debug (msg : QString).

(** ** The model *)

(** [QModel::Private], with the store of the field cells it refers to. *)
Record QModel := mkModel {
  store : Store;
  db_table : QString;
  tableNumber : Z;
  fields : list QField;
  primaryKey : QField;
  batch : list (list QVariant)
}.

Definition with_store (st : Store) (m : QModel) : QModel :=
  mkModel st (db_table m) (tableNumber m) (fields m) (primaryKey m) (batch m).
Definition with_fields (fs : list QField) (m : QModel) : QModel :=
  mkModel (store m) (db_table m) (tableNumber m) fs (primaryKey m) (batch m).
Definition with_primaryKey (pk : QField) (m : QModel) : QModel :=
  mkModel (store m) (db_table m) (tableNumber m) (fields m) pk (batch m).
Definition with_batch (b : list (list QVariant)) (m : QModel) : QModel :=
  mkModel (store m) (db_table m) (tableNumber m) (fields m) (primaryKey m) b.

(** [QModel::QModel(tableName)]. *)
Definition newModel (tableName : QString) : QModel :=
  mkModel [] tableName 0%Z [] None [].

Definition addField (f : QField) (m : QModel) : QModel :=
  with_fields (fields m ++ [f]) m.

(** The four factories share one shape: build the field, [addField] it,
    return the handle. *)
Definition makeField (k : FieldType) (nm : QString) (m : QModel) : QModel * QField :=
  let rs : QField := Some (length (store m)) in
  (addField rs (with_store (store m ++ [new_field nm k]) m), rs).

Definition stringField := makeField StringField.
Definition intField := makeField IntField.
Definition doubleField := makeField DoubleField.
Definition dateTimeField := makeField DateTimeField.

(** The search loop of [init]: the first field flagged as primary key
    wins ([break]); with none, [primaryKey] keeps its value. *)
Fixpoint init_scan (st : Store) (fs : list QField) (pk : QField) : result QField :=
  match fs with
  | [] => Ok pk
  | f :: rest =>
    x ← deref st f;
    if is_primary_key x then Ok f else init_scan st rest pk
  end.

Definition init (m : QModel) : result QModel :=
  pk ← init_scan (store m) (fields m) (primaryKey m);
  let m := with_primaryKey pk m in
  if isValid (primaryKey m) then Ok m
  else
    let '(m, id) := intField (q "id") m in
    let m := with_primaryKey id m in
    st ← update (setAutoIncrement true) (primaryKey m) (store m);
    let m := with_store st m in
    st ← update (setPrimaryKey true) (primaryKey m) (store m);
    let m := with_store st m in
    let m := with_fields (primaryKey m :: fields m) m in
    Ok (with_fields (delete (length (fields m) - 1) (fields m)) m).

Definition clearBatch (m : QModel) : QModel := with_batch [] m.

(** The snapshot loop of [addInBatch]. *)
Fixpoint snapshot_loop (st : Store) (fs : list QField) (row : list QVariant)
  : result (list QVariant) :=
  match fs with
  | [] => Ok row
  | f :: rest =>
    x ← deref st f;
    snapshot_loop st rest (if negb (skipped x) then row ++ [value x] else row)
  end.

Definition addInBatch (m : QModel) : result QModel :=
  row ← snapshot_loop (store m) (fields m) [];
  Ok (with_batch (batch m ++ [row]) m).

Section Model.

(** The driver's identifier escaping ([QSqlDriver::escapeIdentifier]). *)
Variable escapeIdentifier : QString -> IdentifierType -> QString.

(** Modelled from the spec: what storing a raw value does to the null
    flag of a field ([QField::setRawData] is not part of this file's
    sources): the new flag, from the stored value and the old flag. *)
Variable raw_null : QVariant -> bool -> bool.

(** Modelled from the spec: [QField::setRawData] stores the value without
    marking the field as modified. *)
Definition setRawData (v : QVariant) (x : QFieldPrivate) : QFieldPrivate :=
  mkFieldPrivate (name x) (kind x) (raw_null v (is_null x)) (is_primary_key x)
                 (is_auto_increment x) (is_modified x) v.

(** Modelled from the spec: the model-facing setter stores the value and
    sets the modified flag. *)
Definition setData (v : QVariant) (x : QFieldPrivate) : QFieldPrivate :=
  setModified true (setRawData v x).

(** *** saveBatch *)

(** The loop that builds the column list and one group of placeholders. *)
Fixpoint columns_loop (st : Store) (fs : list QField)
         (field_list placeholders : QString) (first : bool)
  : result (QString * QString) :=
  match fs with
  | [] => Ok (field_list, placeholders)
  | f :: rest =>
    x ← deref st f;
    if skipped x then columns_loop st rest field_list placeholders first
    else
      let field_list := if first then field_list else field_list ++ q ", " in
      let placeholders := if first then placeholders else placeholders ++ q ", " in
      columns_loop st rest
                   (field_list ++ escapeIdentifier (name x) FieldName)
                   (placeholders ++ q "?") false
  end.

(** The inner bind loop: one row, [field_index_in_batch] advancing once
    for every field that is not skipped. *)
Fixpoint bind_row (st : Store) (fs : list QField) (row : list QVariant)
         (field_index_in_batch : nat) (bound : list QVariant)
  : result (list QVariant) :=
  match fs with
  | [] => Ok bound
  | f :: rest =>
    x ← deref st f;
    if negb (skipped x) then
      v ← at_ row field_index_in_batch;
      bind_row st rest row (S field_index_in_batch) (bound ++ [v])
    else bind_row st rest row field_index_in_batch bound
  end.

(** The outer bind loop, over the rows of the batch. *)
Fixpoint bind_rows (st : Store) (fs : list QField) (rows : list (list QVariant))
         (bound : list QVariant) : result (list QVariant) :=
  match rows with
  | [] => Ok bound
  | row :: rest =>
    bound ← bind_row st fs row 0 bound;
    bind_rows st fs rest bound
  end.

Definition insert_sql (table field_list placeholders : QString) : QString :=
  QStr.arg (QStr.arg (QStr.arg (q "INSERT INTO %1 (%2) VALUES %3;")
                               (escapeIdentifier table TableName))
                     field_list)
           placeholders.

Definition saveBatch (r : Reply) (m : QModel) : result (QModel * list Event) :=
  if Nat.eqb (length (batch m)) 0 then Ok (m, [])
  else
    cols ← columns_loop (store m) (fields m) [] [] true;
    let field_list := fst cols in
    let placeholders := snd cols in
    let placeholders := QStr.arg (q "(%1), ") placeholders in
    let placeholders := QStr.repeated placeholders (length (batch m)) in
    let placeholders := QStr.resize placeholders (length placeholders - 2) in
    let sql := insert_sql (db_table m) field_list placeholders in
    bound ← bind_rows (store m) (fields m) (batch m) [];
    let log := if exec_ok r then [] else [Debug (q "Could not save object :")] in
    st ← update (setRawData (last_insert_id r)) (primaryKey m) (store m);
    Ok (with_store st m, Exec sql bound :: log).

(** *** save *)

(** The loop that builds the SET clause from the modified fields. *)
Fixpoint set_loop (st : Store) (fs : list QField) (values : QString) (first : bool)
  : result QString :=
  match fs with
  | [] => Ok values
  | f :: rest =>
    x ← deref st f;
    if negb (is_modified x) then set_loop st rest values first
    else
      let values := if first then values else values ++ q ", " in
      set_loop st rest
               (values ++ escapeIdentifier (name x) FieldName ++ q "=?") false
  end.

(** The loop that binds the values of the modified fields. *)
Fixpoint modified_loop (st : Store) (fs : list QField) (bound : list QVariant)
  : result (list QVariant) :=
  match fs with
  | [] => Ok bound
  | f :: rest =>
    x ← deref st f;
    modified_loop st rest (if is_modified x then bound ++ [value x] else bound)
  end.

Definition update_sql (table values pk_name : QString) : QString :=
  QStr.arg (QStr.arg (QStr.arg (q "UPDATE %1 SET %2 WHERE %3=?;")
                               (escapeIdentifier table TableName))
                     values)
           (escapeIdentifier pk_name FieldName).

(** The [else] branch of [save]. *)
Definition save_update (r : Reply) (m : QModel) : result (QModel * list Event) :=
  values ← set_loop (store m) (fields m) [] true;
  pk ← deref (store m) (primaryKey m);
  let sql := update_sql (db_table m) values (name pk) in
  bound ← modified_loop (store m) (fields m) [];
  let bound := bound ++ [value pk] in
  let log := if exec_ok r then [] else [Debug (q "Could not update object :")] in
  Ok (m, Exec sql bound :: log).

(** The [then] branch of [save]. *)
Definition save_insert (r : Reply) (m : QModel) : result (QModel * list Event) :=
  m ← addInBatch (clearBatch m);
  saveBatch r m.

(** The test [forceInsert || pk().isNull()], left to right. *)
Definition save_inserts (forceInsert : bool) (m : QModel) : result bool :=
  if forceInsert then Ok true
  else pk ← deref (store m) (primaryKey m); Ok (is_null pk).

Definition save (forceInsert : bool) (r : Reply) (m : QModel)
  : result (QModel * list Event) :=
  ins ← save_inserts forceInsert m;
  if (ins : bool) then save_insert r m else save_update r m.

(** *** remove *)

Definition delete_sql (table pk_name : QString) : QString :=
  QStr.arg (QStr.arg (q "DELETE FROM %1 WHERE %2=?;")
                     (escapeIdentifier table TableName))
           (escapeIdentifier pk_name FieldName).

Definition remove (r : Reply) (m : QModel) : result (QModel * list Event) :=
  pk ← deref (store m) (primaryKey m);
  let sql := delete_sql (db_table m) (name pk) in
  let bound := [value pk] in
  let log := if exec_ok r then [] else [Debug (q "Could not delete object :")] in
  st ← update (setNull true) (primaryKey m) (store m);
  Ok (with_store st m, Exec sql bound :: log).

(** *** resetModified *)

Fixpoint resetModified_loop (fs : list QField) (st : Store) : result Store :=
  match fs with
  | [] => Ok st
  | f :: rest =>
    st ← update (setModified false) f st;
    resetModified_loop rest st
  end.

Definition resetModified (m : QModel) : result QModel :=
  st ← resetModified_loop (fields m) (store m);
  Ok (with_store st m).

(** *** Sequences of public operations *)

(** The operations a caller has after [init]: the model's own, and the
    setters of the fields it holds ([field(i)] is the handle at position
    [i] of [fields]). *)
Inductive Op :=
| OpClearBatch
| OpAddInBatch
| OpSaveBatch (r : Reply)
| OpSave (forceInsert : bool) (r : Reply)
| OpRemove (r : Reply)
| OpResetModified
| OpSetData (i : nat) (v : QVariant)
| OpSetNull (i : nat) (b : bool).

Definition field_op (g : QFieldPrivate -> QFieldPrivate) (i : nat) (m : QModel)
  : result (QModel * list Event) :=
  f ← at_ (fields m) i;
  st ← update g f (store m);
  Ok (with_store st m, []).

Definition step (m : QModel) (o : Op) : result (QModel * list Event) :=
  match o with
  | OpClearBatch => Ok (clearBatch m, [])
  | OpAddInBatch => m ← addInBatch m; Ok (m, [])
  | OpSaveBatch r => saveBatch r m
  | OpSave forceInsert r => save forceInsert r m
  | OpRemove r => remove r m
  | OpResetModified => m ← resetModified m; Ok (m, [])
  | OpSetData i v => field_op (setData v) i m
  | OpSetNull i b => field_op (setNull b) i m
  end.

Fixpoint run (m : QModel) (ops : list Op) : result (QModel * list Event) :=
  match ops with
  | [] => Ok (m, [])
  | o :: rest =>
    s ← step m o;
    s' ← run (fst s) rest;
    Ok (fst s', snd s ++ snd s')
  end.

End Model.

(** ** Views of a model, used to state its properties *)

(** The cell behind a handle, if any. *)
Definition cell (st : Store) (f : QField) : option QFieldPrivate :=
  match f with Some p => st !! p | None => None end.

(** The cells behind a list of handles, in order. *)
Fixpoint cells_of (st : Store) (fs : list QField) : list QFieldPrivate :=
  match fs with
  | [] => []
  | f :: rest =>
    match cell st f with
    | Some x => x :: cells_of st rest
    | None => cells_of st rest
    end
  end.

(** The cells of [fields], in order. *)
Definition cells (m : QModel) : list QFieldPrivate :=
  cells_of (store m) (fields m).

(** The fields an insert covers now: all but a null primary key. *)
Definition included (m : QModel) : list QFieldPrivate :=
  List.filter (fun x => negb (skipped x)) (cells m).

Definition modified_cells (m : QModel) : list QFieldPrivate :=
  List.filter is_modified (cells m).

(** How many fields of [fields] have the primary-key flag set. *)
Definition pk_count (m : QModel) : nat :=
  length (List.filter is_primary_key (cells m)).

Definition flagged (st : Store) (f : QField) : bool :=
  match cell st f with Some x => is_primary_key x | None => false end.

Definition valid (st : Store) (f : QField) : bool :=
  match f with Some p => bool_decide (p < length st) | None => false end.

(** A model whose fields are declared and on which [init] has not run. *)
Definition declared (m : QModel) : bool :=
  negb (isValid (primaryKey m)) && forallb (valid (store m)) (fields m).

(** What [init] establishes and every later operation keeps: the primary
    key and all fields are live handles. *)
Definition initialized (m : QModel) : bool :=
  valid (store m) (primaryKey m) && forallb (valid (store m)) (fields m).

(** Whether the primary key is null right now. *)
Definition pk_is_null (m : QModel) : bool :=
  match cell (store m) (primaryKey m) with Some x => is_null x | None => false end.

(** Every row of the batch has exactly [F] values. *)
Definition uniform_batch (F : nat) (m : QModel) : bool :=
  forallb (fun row : list QVariant => Nat.eqb (length row) F) (batch m).

(** Every row of the batch has a value for each field an insert covers now. *)
Definition batch_fits (m : QModel) : bool :=
  forallb (fun row : list QVariant => Nat.leb (length (included m)) (length row))
          (batch m).

(** The escaped table name and column names carry no [%] place marker, so
    that chained [arg] calls fill the statement templates hole by hole. *)
Definition plain_identifiers (esc : QString -> IdentifierType -> QString)
           (m : QModel) : bool :=
  QStr.plain (esc (db_table m) TableName)
  && forallb (fun x => QStr.plain (esc (name x) FieldName)) (cells m).

(** The statement texts, in closed form. *)
Definition insert_text (table : QString) (cols : list QString) (B F : nat) : QString :=
  q "INSERT INTO " ++ table ++ q " (" ++ QStr.join (q ", ") cols ++ q ") VALUES "
    ++ QStr.join (q ", ")
         (replicate B (q "(" ++ QStr.join (q ", ") (replicate F (q "?")) ++ q ")"))
    ++ q ";".

Definition update_text (table : QString) (assignments : list QString)
           (pk_name : QString) : QString :=
  q "UPDATE " ++ table ++ q " SET " ++ QStr.join (q ", ") assignments
    ++ q " WHERE " ++ pk_name ++ q "=?;".

Definition delete_text (table pk_name : QString) : QString :=
  q "DELETE FROM " ++ table ++ q " WHERE " ++ pk_name ++ q "=?;".

(** What a loop that writes [sep] before every element but the first
    leaves in its accumulator after the elements [l]. *)
Definition joined (sep acc : QString) (first : bool) (l : list QString) : QString :=
  match l with
  | [] => acc
  | _ => (if first then acc else acc ++ sep) ++ QStr.join sep l
  end.

(** The part of a model that is fixed once [init] has run: which handles
    are its fields and its primary key, and how many cells the store has. *)
Definition same_shape (m m' : QModel) : Prop :=
  fields m' = fields m /\ primaryKey m' = primaryKey m /\
  length (store m') = length (store m) /\ db_table m' = db_table m.

(** The cell of the primary key that [init] synthesizes. *)
Definition id_cell : QFieldPrivate :=
  mkFieldPrivate (q "id") IntField true true true false Invalid.

(** ** A concrete driver and concrete models *)

Definition dquote : QChar := "034"%char.

(** Identifier quoting with double quotes, as the SQL surface of the
    specification assumes. *)
Definition quoteIdentifier (s : QString) (_ : IdentifierType) : QString :=
  dquote :: s ++ [dquote].

(** Modelled from the spec: a stored valid value makes the field non-null
    (a persisted primary key is not null); an invalid one makes it null. *)
Definition null_of_raw (v : QVariant) (old : bool) : bool :=
  match v with Invalid => true | _ => false end.

(** [QModel person("person"); person.stringField("name");] *)
Definition person_declared : QModel :=
  fst (stringField (q "name") (newModel (q "person"))).

(** Three columns A, B, C and a declared integer key. *)
Definition abc_declared : QModel :=
  let m := newModel (q "t") in
  let '(m, k) := intField (q "k") m in
  let m := match update (setPrimaryKey true) k (store m) with
           | Ok st => with_store st m
           | Fault _ => m
           end in
  let m := fst (stringField (q "A") m) in
  let m := fst (stringField (q "B") m) in
  fst (stringField (q "C") m).

(** Two declared fields that both claim primary-key status. *)
Definition two_keys_declared : QModel :=
  let m := newModel (q "t") in
  let '(m, a) := intField (q "a") m in
  let '(m, b) := intField (q "b") m in
  let flag f m := match update (setPrimaryKey true) f (store m) with
                  | Ok st => with_store st m
                  | Fault _ => m
                  end in
  flag b (flag a m).

(** [init] followed by a sequence of operations, with the concrete driver. *)
Definition session (m : QModel) (ops : list Op) : result (QModel * list Event) :=
  m ← init m; run quoteIdentifier null_of_raw m ops.

Definition succeeded (id : Z) : Reply := mkReply true (VInt id).
Definition failed : Reply := mkReply false Invalid.

(** The model a session leaves behind. *)
Definition state_after (m : QModel) (ops : list Op) : QModel :=
  match session m ops with
  | Ok (m', _) => m'
  | Fault _ => m
  end.

(** A person named bob, inserted once with key 5, and snapshotted again
    for a second insert. *)
Definition person_pending : QModel :=
  state_after person_declared
    [OpSetData 1 (VString (q "bob")); OpAddInBatch; OpSaveBatch (succeeded 5);
     OpClearBatch; OpAddInBatch].

(** A person not yet persisted, with three snapshots waiting. *)
Definition person_three_rows : QModel :=
  state_after person_declared
    [OpSetData 1 (VString (q "ann")); OpAddInBatch;
     OpSetData 1 (VString (q "bob")); OpAddInBatch;
     OpSetData 1 (VString (q "cy")); OpAddInBatch].

(** A persisted row of [abc_declared] (key 7) on which A and C, but not B,
    were assigned after the last reset. *)
Definition abc_modified : QModel :=
  state_after abc_declared
    [OpSetData 0 (VInt 7); OpSetData 2 (VString (q "b")); OpResetModified;
     OpSetData 1 (VString (q "a")); OpSetData 3 (VString (q "c"))].

(** The same row right after a reset: nothing is modified. *)
Definition abc_clean : QModel :=
  state_after abc_declared
    [OpSetData 0 (VInt 7); OpSetData 2 (VString (q "b")); OpResetModified].

(** ** The rest of qmodel.cpp *)

Definition setTableName (tableName : QString) (m : QModel) : QModel :=
  mkModel (store m) tableName (tableNumber m) (fields m) (primaryKey m) (batch m).

Definition tableName (m : QModel) : QString := db_table m.

Definition setTableNumber (n : Z) (m : QModel) : QModel :=
  mkModel (store m) (db_table m) n (fields m) (primaryKey m) (batch m).

Definition fieldsCount (m : QModel) : nat := length (fields m).

(** [field(i)] is [d->fields.at(i)]. *)
Definition field (i : nat) (m : QModel) : result QField := at_ (fields m) i.

Definition newline : QChar := "010"%char.

Section Schema.

(** The driver of the default connection. *)
Variable escapeIdentifier : QString -> IdentifierType -> QString.

(** Modelled from the spec: the SQL type description a field reports about
    itself ([QField::sqlDescription] is not part of this file's sources). *)
Variable sqlDescription : QFieldPrivate -> QString.

(** Modelled from the spec: whether a field is a foreign key
    ([QFieldPrivate::isForeignKey] is not part of this file's sources). *)
Variable isForeignKey : QFieldPrivate -> bool.

(** The loop of [createTableSql]: [i] is the loop index and [size] is
    [d->fields.size()]; every line but the last is followed by a comma and
    a line break. *)
Fixpoint createTable_loop (st : Store) (fs : list QField) (i size : nat)
         (field_list : QString) : result QString :=
  match fs with
  | [] => Ok field_list
  | f :: rest =>
    x ← deref st f;
    let field_list := field_list ++ q "    " in
    let field_list := field_list ++ escapeIdentifier (name x) FieldName in
    let field_list := field_list ++ [" "%char] in
    let field_list := field_list ++ sqlDescription x in
    let field_list :=
        if negb (Nat.eqb i (size - 1)) then field_list ++ q "," ++ [newline]
        else field_list in
    createTable_loop st rest (S i) size field_list
  end.

Definition createTable_template : QString :=
  q "CREATE TABLE %1 (" ++ [newline] ++ q "%2" ++ [newline] ++ q ");".

Definition createTableSql (m : QModel) : result QString :=
  field_list ← createTable_loop (store m) (fields m) 0 (length (fields m)) [];
  Ok (QStr.arg (QStr.arg createTable_template
                         (escapeIdentifier (db_table m) TableName))
               field_list).



End Schema.

(** ** Further views and concrete models *)


(** One line of a CREATE TABLE statement. *)
Definition column_line (esc : QString -> IdentifierType -> QString)
           (describe : QFieldPrivate -> QString) (x : QFieldPrivate) : QString :=
  q "    " ++ esc (name x) FieldName ++ [" "%char] ++ describe x.

Definition separator_line : QString := q "," ++ [newline].

Definition createTable_text (table : QString) (lines : list QString) : QString :=
  q "CREATE TABLE " ++ table ++ q " (" ++ [newline]
    ++ QStr.join separator_line lines ++ [newline] ++ q ");".



(** A type description by kind of field, for the concrete models. *)
Definition describe_kind (x : QFieldPrivate) : QString :=
  match kind x with
  | StringField => q "TEXT"
  | IntField => q "INTEGER"
  | DoubleField => q "REAL"
  | DateTimeField => q "DATETIME"
  end.

(** [person_declared] right after [init]. *)
Definition person_initialized : QModel := state_after person_declared [].

(** [abc_declared] right after [init]. *)
Definition abc_initialized : QModel := state_after abc_declared [].

(** [abc_modified] after a reset. *)
Definition abc_reset : QModel :=
  state_after abc_declared
    [OpSetData 0 (VInt 7); OpSetData 2 (VString (q "b")); OpResetModified;
     OpSetData 1 (VString (q "a")); OpSetData 3 (VString (q "c"));
     OpResetModified].


(** A persisted person whose batch still holds a row that includes the key,
    after [remove] has nulled the key. *)
Definition person_removed : QModel :=
  state_after person_declared
    [OpSetData 1 (VString (q "bob")); OpAddInBatch; OpSaveBatch (succeeded 5);
     OpClearBatch; OpAddInBatch; OpRemove (succeeded 0)].

Section QStr_facts.
Import QStr.

Lemma findArgEscapes_plain_app (a s : QString) :
  plain a = true ->
  findArgEscapes (a ++ s) = map Lit a ++ findArgEscapes s.
Proof.
  induction a as [|c a IH]; intros Hp; [reflexivity|].
  simpl in Hp. apply andb_prop in Hp as [Hc Ha].
  apply negb_true_iff in Hc.
  change ((c :: a) ++ s) with (c :: (a ++ s)).
  cbn [findArgEscapes]. rewrite Hc. cbn [map app]. f_equal. auto.
Qed.

Lemma min_escape_lits (a : QString) (ps : list piece) :
  min_escape (map Lit a ++ ps) = min_escape ps.
Proof. induction a as [|c a IH]; simpl; auto. Qed.

Lemma replaceArgEscapes_lits (a : QString) (ps : list piece) n x :
  replaceArgEscapes (map Lit a ++ ps) n x = a ++ replaceArgEscapes ps n x.
Proof. induction a as [|c a IH]; simpl; [reflexivity|]. by rewrite IH. Qed.

(** A marker-free prefix is left alone by [arg]. *)
Lemma arg_plain_prefix (a s x : QString) :
  plain a = true -> arg (a ++ s) x = a ++ arg s x.
Proof.
  intros Hp. unfold arg.
  rewrite (findArgEscapes_plain_app _ _ Hp), min_escape_lits.
  destruct (min_escape (findArgEscapes s)); [|reflexivity].
  apply replaceArgEscapes_lits.
Qed.

Lemma plain_app (a b : QString) :
  plain (a ++ b) = plain a && plain b.
Proof. unfold plain. apply forallb_app. Qed.

Lemma plain_join (sep : QString) (l : list QString) :
  plain sep = true -> forallb plain l = true -> plain (join sep l) = true.
Proof.
  intros Hs. induction l as [|x [|y r] IH]; intros Hl; [reflexivity|..].
  - simpl in *. by apply andb_prop in Hl as [-> _].
  - change (join sep (x :: y :: r)) with (x ++ sep ++ join sep (y :: r)).
    change (forallb plain (x :: y :: r))
      with (plain x && forallb plain (y :: r)) in Hl.
    apply andb_prop in Hl as [Hx Hr].
    rewrite !plain_app, Hx, Hs. simpl. auto.
Qed.

End QStr_facts.

Example arg_one_marker :
  QStr.arg (q "(%1), ") (q "?, ?") = q "(?, ?), ".
Proof. reflexivity. Qed.

Example arg_lowest_first :
  QStr.arg (QStr.arg (q "%2 then %1") (q "a")) (q "b") = q "b then a".
Proof. reflexivity. Qed.

(** ** Handles and the store *)

Lemma valid_cell (st : Store) (f : QField) :
  valid st f = true -> exists x, cell st f = Some x.
Proof.
  destruct f as [p|]; simpl; [|discriminate].
  intros H. apply bool_decide_eq_true in H.
  apply lookup_lt_is_Some_2 in H as [x Hx]. eauto.
Qed.

Lemma deref_cell (st : Store) (f : QField) (x : QFieldPrivate) :
  cell st f = Some x -> deref st f = Ok x.
Proof. destruct f as [p|]; simpl; [|discriminate]. by intros ->. Qed.

Lemma cell_insert_same (st : Store) (p : nat) (y : QFieldPrivate) :
  p < length st -> cell (<[p := y]> st) (Some p) = Some y.
Proof. intros H. unfold cell. by apply list_lookup_insert_eq. Qed.

Lemma cell_insert_other (st : Store) (p : nat) (y : QFieldPrivate) (f : QField) :
  f <> Some p -> cell (<[p := y]> st) f = cell st f.
Proof.
  destruct f as [p'|]; [|reflexivity].
  intros H. unfold cell. apply list_lookup_insert_ne. congruence.
Qed.

Lemma valid_app (st ext : Store) (f : QField) :
  valid st f = true -> valid (st ++ ext) f = true.
Proof.
  destruct f; simpl; [|discriminate].
  rewrite !bool_decide_eq_true, length_app. lia.
Qed.

Lemma cell_app (st ext : Store) (f : QField) :
  valid st f = true -> cell (st ++ ext) f = cell st f.
Proof.
  destruct f; simpl; [|discriminate].
  rewrite bool_decide_eq_true. intros H. by apply lookup_app_l.
Qed.

Lemma forallb_valid_app (st ext : Store) (fs : list QField) :
  forallb (valid st) fs = true -> forallb (valid (st ++ ext)) fs = true.
Proof.
  induction fs as [|f fs IH]; simpl; [reflexivity|].
  intros [Hf Hfs]%andb_prop. by rewrite valid_app, IH.
Qed.

Lemma cells_of_app (st ext : Store) (fs : list QField) :
  forallb (valid st) fs = true ->
  cells_of (st ++ ext) fs = cells_of st fs.
Proof.
  induction fs as [|f fs IH]; simpl; [reflexivity|].
  intros [Hf Hfs]%andb_prop. by rewrite cell_app, IH.
Qed.

(** Case analysis on the head of a list of live handles. *)
Ltac live_head H :=
  let Hf := fresh "Hf" in
  let Hfs := fresh "Hfs" in
  let x := fresh "x" in
  let Hx := fresh "Hx" in
  simpl in H; apply andb_prop in H as [Hf Hfs];
  destruct (valid_cell _ _ Hf) as [x Hx];
  cbn [cells_of]; rewrite ?Hx, ?(deref_cell _ _ _ Hx); cbn [mbind result_bind].

(** ** The loops, in closed form *)

Lemma snapshot_loop_closed (st : Store) (fs : list QField) (row : list QVariant) :
  forallb (valid st) fs = true ->
  snapshot_loop st fs row
  = Ok (row ++ map value (List.filter (fun x => negb (skipped x)) (cells_of st fs))).
Proof.
  revert row. induction fs as [|f fs IH]; intros row H.
  - simpl. by rewrite app_nil_r.
  - cbn [snapshot_loop]. live_head H.
    rewrite (IH _ Hfs). cbn [List.filter].
    destruct (negb (skipped x)); [|reflexivity].
    cbn [map]. by rewrite <- app_assoc.
Qed.

Lemma joined_cons (sep acc : QString) (first : bool) (e : QString) (l : list QString) :
  joined sep acc first (e :: l)
  = joined sep ((if first then acc else acc ++ sep) ++ e) false l.
Proof.
  destruct l as [|y r]; [reflexivity|].
  unfold joined. cbn [QStr.join]. by rewrite <- !app_assoc.
Qed.

Lemma joined_first (sep : QString) (l : list QString) :
  joined sep [] true l = QStr.join sep l.
Proof. by destruct l. Qed.

Section Loops.

Variable escapeIdentifier : QString -> IdentifierType -> QString.

Lemma columns_loop_closed (st : Store) (fs : list QField)
      (field_list placeholders : QString) (first : bool) :
  forallb (valid st) fs = true ->
  let cols := List.filter (fun x => negb (skipped x)) (cells_of st fs) in
  columns_loop escapeIdentifier st fs field_list placeholders first
  = Ok (joined (q ", ") field_list first
               (map (fun x => escapeIdentifier (name x) FieldName) cols),
        joined (q ", ") placeholders first (map (fun _ => q "?") cols)).
Proof.
  revert field_list placeholders first.
  induction fs as [|f fs IH]; intros fl ph first H; [reflexivity|].
  cbn [columns_loop]. live_head H.
  cbn [List.filter]. destruct (skipped x); cbn [negb].
  - apply (IH _ _ _ Hfs).
  - cbn [map]. rewrite !joined_cons. apply (IH _ _ _ Hfs).
Qed.

Lemma set_loop_closed (st : Store) (fs : list QField) (values : QString)
      (first : bool) :
  forallb (valid st) fs = true ->
  set_loop escapeIdentifier st fs values first
  = Ok (joined (q ", ") values first
               (map (fun x => escapeIdentifier (name x) FieldName ++ q "=?")
                    (List.filter is_modified (cells_of st fs)))).
Proof.
  revert values first.
  induction fs as [|f fs IH]; intros values first H; [reflexivity|].
  cbn [set_loop]. live_head H.
  cbn [List.filter]. destruct (is_modified x); cbn [negb].
  - cbn [map]. rewrite joined_cons. apply (IH _ _ Hfs).
  - apply (IH _ _ Hfs).
Qed.

End Loops.

Lemma modified_loop_closed (st : Store) (fs : list QField) (bound : list QVariant) :
  forallb (valid st) fs = true ->
  modified_loop st fs bound
  = Ok (bound ++ map value (List.filter is_modified (cells_of st fs))).
Proof.
  revert bound. induction fs as [|f fs IH]; intros bound H.
  - simpl. by rewrite app_nil_r.
  - cbn [modified_loop]. live_head H.
    rewrite (IH _ Hfs). cbn [List.filter].
    destruct (is_modified x); [|reflexivity].
    cbn [map]. by rewrite <- app_assoc.
Qed.

(** The inner bind loop reads [row] from [field_index_in_batch] on, one
    value for each field that is not skipped. *)
Lemma bind_row_closed (st : Store) (fs : list QField) (row : list QVariant)
      (idx : nat) (bound : list QVariant) :
  forallb (valid st) fs = true ->
  let n := length (List.filter (fun x => negb (skipped x)) (cells_of st fs)) in
  idx + n <= length row ->
  bind_row st fs row idx bound = Ok (bound ++ take n (drop idx row)).
Proof.
  revert idx bound. induction fs as [|f fs IH]; intros idx bound H.
  - simpl. intros _. by rewrite app_nil_r.
  - cbn [bind_row]. live_head H.
    cbn [List.filter]. destruct (skipped x); cbn [negb length]; intros Hlen.
    + apply (IH _ _ Hfs Hlen).
    + destruct (lookup_lt_is_Some_2 row idx) as [v Hv]; [lia|].
      unfold at_. rewrite Hv. cbn [mbind result_bind].
      rewrite (IH _ _ Hfs) by lia.
      rewrite (drop_S _ _ _ Hv). cbn [take]. by rewrite <- app_assoc.
Qed.

(** It leaves the bounds of a row that is too short. *)
Lemma bind_row_short (st : Store) (fs : list QField) (row : list QVariant)
      (idx : nat) (bound : list QVariant) :
  forallb (valid st) fs = true ->
  let n := length (List.filter (fun x => negb (skipped x)) (cells_of st fs)) in
  idx <= length row -> length row < idx + n ->
  bind_row st fs row idx bound = Fault (OutOfRange (length row) (length row)).
Proof.
  revert idx bound. induction fs as [|f fs IH]; intros idx bound H.
  - simpl. lia.
  - cbn [bind_row]. live_head H.
    cbn [List.filter]. destruct (skipped x); cbn [negb length]; intros Hle Hlen.
    + apply (IH _ _ Hfs Hle Hlen).
    + destruct (decide (idx = length row)) as [->|Hne].
      * unfold at_. by rewrite (lookup_ge_None_2 row (length row)).
      * destruct (lookup_lt_is_Some_2 row idx) as [v Hv]; [lia|].
        unfold at_. rewrite Hv. cbn [mbind result_bind].
        apply (IH _ _ Hfs); lia.
Qed.

Lemma bind_rows_closed (st : Store) (fs : list QField) (rows : list (list QVariant))
      (bound : list QVariant) :
  forallb (valid st) fs = true ->
  let n := length (List.filter (fun x => negb (skipped x)) (cells_of st fs)) in
  forallb (fun row : list QVariant => Nat.leb n (length row)) rows = true ->
  bind_rows st fs rows bound = Ok (bound ++ concat (map (take n) rows)).
Proof.
  intros H n. revert bound. induction rows as [|row rows IH]; intros bound Hrows.
  - simpl. by rewrite app_nil_r.
  - simpl in Hrows. apply andb_prop in Hrows as [Hrow Hrows].
    apply Nat.leb_le in Hrow.
    cbn [bind_rows]. rewrite (bind_row_closed _ _ _ _ _ H) by (fold n; lia).
    cbn [mbind result_bind]. rewrite (IH _ Hrows).
    fold n. rewrite drop_0. cbn [map concat]. by rewrite <- app_assoc.
Qed.

(** ** Placeholder groups *)

Lemma group_arg (p : QString) :
  QStr.arg (q "(%1), ") p = (q "(" ++ p ++ q ")") ++ q ", ".
Proof. unfold QStr.arg. cbn. by rewrite <- app_assoc. Qed.

Lemma repeated_join (g sep : QString) (n : nat) :
  QStr.repeated (g ++ sep) (S n) = QStr.join sep (replicate (S n) g) ++ sep.
Proof.
  unfold QStr.repeated. induction n as [|n IH].
  - simpl. by rewrite app_nil_r.
  - change (concat (replicate (S (S n)) (g ++ sep)))
      with ((g ++ sep) ++ concat (replicate (S n) (g ++ sep))).
    rewrite IH.
    change (QStr.join sep (replicate (S (S n)) g))
      with (g ++ sep ++ QStr.join sep (replicate (S n) g)).
    by rewrite <- !app_assoc.
Qed.

Lemma resize_drop_suffix (x sep : QString) :
  QStr.resize (x ++ sep) (length (x ++ sep) - length sep) = x.
Proof.
  unfold QStr.resize. rewrite length_app.
  replace (length x + length sep - length sep) with (length x) by lia.
  by rewrite take_app_length.
Qed.

(** The three steps that turn the placeholders of one row into the
    VALUES clause of [B] rows. *)
Lemma placeholders_closed (p : QString) (B : nat) :
  B <> 0 ->
  QStr.resize (QStr.repeated (QStr.arg (q "(%1), ") p) B)
              (length (QStr.repeated (QStr.arg (q "(%1), ") p) B) - 2)
  = QStr.join (q ", ") (replicate B (q "(" ++ p ++ q ")")).
Proof.
  intros HB. destruct B as [|n]; [done|].
  rewrite group_arg, repeated_join.
  apply (resize_drop_suffix _ (q ", ")).
Qed.

Lemma map_const_replicate {A B} (c : B) (l : list A) :
  map (fun _ => c) l = replicate (length l) c.
Proof. induction l as [|x l IH]; simpl; [reflexivity|]. by rewrite IH. Qed.

(** ** Statement templates *)

Section Templates.

Variable escapeIdentifier : QString -> IdentifierType -> QString.

Lemma insert_sql_closed (table field_list placeholders : QString) :
  QStr.plain (escapeIdentifier table TableName) = true ->
  QStr.plain field_list = true ->
  insert_sql escapeIdentifier table field_list placeholders
  = q "INSERT INTO " ++ escapeIdentifier table TableName ++ q " ("
      ++ field_list ++ q ") VALUES " ++ placeholders ++ q ";".
Proof.
  intros Ht Hf. unfold insert_sql.
  set (t := escapeIdentifier table TableName) in *.
  assert (QStr.arg (q "INSERT INTO %1 (%2) VALUES %3;") t
          = q "INSERT INTO " ++ t ++ q " (%2) VALUES %3;") as -> by reflexivity.
  rewrite (arg_plain_prefix (q "INSERT INTO ")) by reflexivity.
  rewrite (arg_plain_prefix t) by assumption.
  assert (QStr.arg (q " (%2) VALUES %3;") field_list
          = q " (" ++ field_list ++ q ") VALUES %3;") as -> by reflexivity.
  rewrite (arg_plain_prefix (q "INSERT INTO ")) by reflexivity.
  rewrite (arg_plain_prefix t) by assumption.
  rewrite (arg_plain_prefix (q " (")) by reflexivity.
  rewrite (arg_plain_prefix field_list) by assumption.
  reflexivity.
Qed.

Lemma update_sql_closed (table values pk_name : QString) :
  QStr.plain (escapeIdentifier table TableName) = true ->
  QStr.plain values = true ->
  update_sql escapeIdentifier table values pk_name
  = q "UPDATE " ++ escapeIdentifier table TableName ++ q " SET " ++ values
      ++ q " WHERE " ++ escapeIdentifier pk_name FieldName ++ q "=?;".
Proof.
  intros Ht Hv. unfold update_sql.
  set (t := escapeIdentifier table TableName) in *.
  assert (QStr.arg (q "UPDATE %1 SET %2 WHERE %3=?;") t
          = q "UPDATE " ++ t ++ q " SET %2 WHERE %3=?;") as -> by reflexivity.
  rewrite (arg_plain_prefix (q "UPDATE ")) by reflexivity.
  rewrite (arg_plain_prefix t) by assumption.
  assert (QStr.arg (q " SET %2 WHERE %3=?;") values
          = q " SET " ++ values ++ q " WHERE %3=?;") as -> by reflexivity.
  rewrite (arg_plain_prefix (q "UPDATE ")) by reflexivity.
  rewrite (arg_plain_prefix t) by assumption.
  rewrite (arg_plain_prefix (q " SET ")) by reflexivity.
  rewrite (arg_plain_prefix values) by assumption.
  reflexivity.
Qed.

Lemma delete_sql_closed (table pk_name : QString) :
  QStr.plain (escapeIdentifier table TableName) = true ->
  delete_sql escapeIdentifier table pk_name
  = q "DELETE FROM " ++ escapeIdentifier table TableName ++ q " WHERE "
      ++ escapeIdentifier pk_name FieldName ++ q "=?;".
Proof.
  intros Ht. unfold delete_sql.
  set (t := escapeIdentifier table TableName) in *.
  assert (QStr.arg (q "DELETE FROM %1 WHERE %2=?;") t
          = q "DELETE FROM " ++ t ++ q " WHERE %2=?;") as -> by reflexivity.
  rewrite (arg_plain_prefix (q "DELETE FROM ")) by reflexivity.
  rewrite (arg_plain_prefix t) by assumption.
  reflexivity.
Qed.

End Templates.

(** ** init *)

Lemma init_scan_closed (st : Store) (fs : list QField) (pk : QField) :
  forallb (valid st) fs = true ->
  init_scan st fs pk
  = Ok (match List.find (flagged st) fs with Some f => f | None => pk end).
Proof.
  induction fs as [|f fs IH]; intros H; [reflexivity|].
  cbn [init_scan List.find]. unfold flagged at 1. live_head H.
  destruct (is_primary_key x); [reflexivity|]. apply (IH Hfs).
Qed.

Lemma find_flagged_count (st : Store) (fs : list QField) (f : QField) :
  List.find (flagged st) fs = Some f ->
  1 <= length (List.filter is_primary_key (cells_of st fs)).
Proof.
  induction fs as [|g fs IH]; [discriminate|].
  cbn [List.find cells_of]. unfold flagged at 1.
  destruct (cell st g) as [x|]; [|auto].
  cbn [List.filter]. destruct (is_primary_key x); [simpl; lia|auto].
Qed.

Lemma find_flagged_none (st : Store) (fs : list QField) :
  List.find (flagged st) fs = None ->
  List.filter is_primary_key (cells_of st fs) = [].
Proof.
  induction fs as [|g fs IH]; [reflexivity|].
  cbn [List.find cells_of]. unfold flagged at 1.
  destruct (cell st g) as [x|]; [|auto].
  cbn [List.filter]. destruct (is_primary_key x); [discriminate|auto].
Qed.

Lemma declared_parts (m : QModel) :
  declared m = true ->
  primaryKey m = None /\ forallb (valid (store m)) (fields m) = true.
Proof.
  unfold declared. intros [Hpk Hfs]%andb_prop. split; [|done].
  by destruct (primaryKey m).
Qed.

(** With a declared key: the first flagged field becomes the primary key
    and nothing else changes. *)
Lemma init_found (m : QModel) (f : QField) :
  declared m = true ->
  List.find (flagged (store m)) (fields m) = Some f ->
  init m = Ok (with_primaryKey f m) /\ valid (store m) f = true.
Proof.
  intros [Hpk Hfs]%declared_parts Hfind. unfold init.
  rewrite (init_scan_closed _ _ _ Hfs), Hfind. cbn [mbind result_bind].
  apply find_some in Hfind as [Hin Hflag].
  assert (valid (store m) f = true) as Hv.
  { rewrite forallb_forall in Hfs. auto. }
  split; [|done]. destruct f; [reflexivity|discriminate].
Qed.

(** Without one: the cell of [id] is appended to the store and its handle
    is put in front of the declared fields. *)
Lemma init_synthesized (m : QModel) :
  declared m = true ->
  List.find (flagged (store m)) (fields m) = None ->
  init m = Ok (mkModel (store m ++ [id_cell]) (db_table m) (tableNumber m)
                       (Some (length (store m)) :: fields m)
                       (Some (length (store m))) (batch m)).
Proof.
  intros [Hpk Hfs]%declared_parts Hfind. unfold init.
  rewrite (init_scan_closed _ _ _ Hfs), Hfind, Hpk. cbn [mbind result_bind].
  unfold intField, makeField, addField, with_primaryKey, with_store, with_fields.
  cbn [isValid primaryKey store fields db_table tableNumber batch update].
  rewrite (list_lookup_middle (store m) [] _ (length (store m)) eq_refl).
  cbn [mbind result_bind].
  rewrite list_lookup_insert_eq by (rewrite length_app; simpl; lia).
  cbn [mbind result_bind]. do 2 f_equal.
  - rewrite list_insert_insert_eq.
    rewrite <- (Nat.add_0_r (length (store m))) at 1.
    by rewrite insert_app_r.
  - replace (length (Some (length (store m))
                     :: fields m ++ [Some (length (store m))]) - 1)
      with (length (Some (length (store m)) :: fields m))
      by (cbn [length]; rewrite length_app; cbn [length]; lia).
    change (Some (length (store m)) :: fields m ++ [Some (length (store m))])
      with ((Some (length (store m)) :: fields m) ++ [Some (length (store m))]).
    rewrite delete_middle. by rewrite app_nil_r.
Qed.

Lemma find_flagged_none_iff (st : Store) (fs : list QField) :
  forallb (fun f => negb (flagged st f)) fs = true <->
  List.find (flagged st) fs = None.
Proof.
  induction fs as [|g fs IH]; [done|].
  cbn [forallb List.find]. destruct (flagged st g); cbn [negb andb]; [|done].
  split; discriminate.
Qed.

Lemma cells_synthesized (st : Store) (fs : list QField) :
  forallb (valid st) fs = true ->
  cells_of (st ++ [id_cell]) (Some (length st) :: fs) = id_cell :: cells_of st fs.
Proof.
  intros H. cbn [cells_of cell].
  rewrite (list_lookup_middle st [] _ (length st) eq_refl).
  by rewrite cells_of_app.
Qed.

(** [init] leaves an initialized model. *)
Lemma init_initialized (m m' : QModel) :
  declared m = true -> init m = Ok m' -> initialized m' = true.
Proof.
  intros Hd Hinit. pose proof (declared_parts _ Hd) as [Hpk Hfs].
  destruct (List.find (flagged (store m)) (fields m)) as [f|] eqn:Hfind.
  - destruct (init_found _ _ Hd Hfind) as [Hi Hv].
    rewrite Hi in Hinit. injection Hinit as <-.
    unfold initialized. cbn. by rewrite Hv, Hfs.
  - rewrite (init_synthesized _ Hd Hfind) in Hinit. injection Hinit as <-.
    unfold initialized. cbn [store primaryKey fields forallb].
    assert (valid (store m ++ [id_cell]) (Some (length (store m))) = true) as ->.
    { unfold valid. apply bool_decide_eq_true. rewrite length_app. simpl. lia. }
    by rewrite forallb_valid_app.
Qed.

(** C5. For a model declared with no primary-key field, [init] puts at
    [fields[0]] an integer field named [id] with the auto-increment and
    primary-key flags set and designates it as [primaryKey]; every declared
    field sits one position later, with its cell untouched, none duplicated
    or lost; no other field is marked primary key. *)
Theorem init_synthesizes_id (m : QModel) :
  declared m = true ->
  forallb (fun f => negb (flagged (store m) f)) (fields m) = true ->
  exists m',
    init m = Ok m' /\
    fields m' !! 0 = Some (primaryKey m') /\
    cell (store m') (primaryKey m')
    = Some {| name := q "id"; kind := IntField; is_null := true;
              is_primary_key := true; is_auto_increment := true;
              is_modified := false; value := Invalid |} /\
    fields m' = primaryKey m' :: fields m /\
    (forall i f, fields m !! i = Some f ->
                 fields m' !! S i = Some f /\
                 cell (store m') f = cell (store m) f) /\
    cells m' = id_cell :: cells m /\
    (forall i x, cells m' !! S i = Some x -> is_primary_key x = false).
Proof.
  intros Hd Hnone. apply find_flagged_none_iff in Hnone.
  pose proof (declared_parts _ Hd) as [Hpk Hfs].
  eexists. split; [apply (init_synthesized _ Hd Hnone)|].
  cbn [fields primaryKey store].
  assert (cells_of (store m ++ [id_cell]) (Some (length (store m)) :: fields m)
          = id_cell :: cells m) as Hcells by (by apply cells_synthesized).
  repeat split.
  - unfold cell. apply (list_lookup_middle _ [] _ _ eq_refl).
  - assumption.
  - apply cell_app. rewrite forallb_forall in Hfs.
    apply Hfs, list_elem_of_In, (list_elem_of_lookup_2 _ i), H.
  - exact Hcells.
  - intros i x. unfold cells at 1. cbn [store fields]. rewrite Hcells.
    cbn [lookup list_lookup]. intros Hx.
    apply find_flagged_none in Hnone.
    destruct (is_primary_key x) eqn:Hflag; [|reflexivity].
    assert (In x (List.filter is_primary_key (cells m))) as Hin.
    { apply filter_In. split; [|done].
      apply list_elem_of_In, (list_elem_of_lookup_2 _ i), Hx. }
    unfold cells in Hin. rewrite Hnone in Hin. destruct Hin.
Qed.

Lemma init_synthesizes_id_witness :
  declared person_declared = true /\
  forallb (fun f => negb (flagged (store person_declared) f))
          (fields person_declared) = true /\
  exists m',
    init person_declared = Ok m' /\
    fields m' !! 0 = Some (primaryKey m') /\
    cell (store m') (primaryKey m')
    = Some {| name := q "id"; kind := IntField; is_null := true;
              is_primary_key := true; is_auto_increment := true;
              is_modified := false; value := Invalid |} /\
    fields m' = primaryKey m' :: fields person_declared /\
    (forall i f, fields person_declared !! i = Some f ->
                 fields m' !! S i = Some f /\
                 cell (store m') f = cell (store person_declared) f) /\
    cells m' = id_cell :: cells person_declared /\
    (forall i x, cells m' !! S i = Some x -> is_primary_key x = false).
Proof.
  split; [reflexivity|]. split; [reflexivity|].
  apply (init_synthesizes_id person_declared); reflexivity.
Defined.

(** C2, as the code has it. After [init] the designated [primaryKey] is the
    first field of [fields] whose primary-key flag is set (the first declared
    claimant, or the synthesized [id]); the flag of a later claimant is not
    cleared, so the number of flagged fields is the number of declared
    claimants, or one when there is none: exactly one whenever at most one
    declared field claims the key. *)
Theorem init_primary_key_count (m : QModel) :
  declared m = true ->
  exists m',
    init m = Ok m' /\
    initialized m' = true /\
    List.find (flagged (store m')) (fields m') = Some (primaryKey m') /\
    pk_count m' = Nat.max 1 (pk_count m) /\
    (pk_count m <= 1 -> pk_count m' = 1).
Proof.
  intros Hd. pose proof (declared_parts _ Hd) as [Hpk Hfs].
  assert (forall a b, a = Nat.max 1 b -> b <= 1 -> a = 1) as Hmax by lia.
  destruct (List.find (flagged (store m)) (fields m)) as [f|] eqn:Hfind.
  - destruct (init_found _ _ Hd Hfind) as [Hi Hv].
    exists (with_primaryKey f m).
    assert (pk_count (with_primaryKey f m) = Nat.max 1 (pk_count m)) as Hcount.
    { pose proof (find_flagged_count _ _ _ Hfind).
      unfold pk_count, cells. cbn [with_primaryKey store fields]. lia. }
    split_and!; [done|by apply (init_initialized m)|exact Hfind|exact Hcount|].
    apply Hmax, Hcount.
  - pose proof (init_synthesized _ Hd Hfind) as Hi.
    eexists. split; [exact Hi|].
    assert (pk_count
              (mkModel (store m ++ [id_cell]) (db_table m) (tableNumber m)
                       (Some (length (store m)) :: fields m)
                       (Some (length (store m))) (batch m))
            = Nat.max 1 (pk_count m)) as Hcount.
    { unfold pk_count, cells. cbn [store fields].
      rewrite (cells_synthesized _ _ Hfs). cbn [List.filter id_cell is_primary_key].
      by rewrite (find_flagged_none _ _ Hfind). }
    split_and!; [by apply (init_initialized m)| |exact Hcount|apply Hmax, Hcount].
    cbn [store fields primaryKey List.find]. unfold flagged at 1, cell.
    by rewrite (list_lookup_middle _ [] _ _ eq_refl).
Qed.

Lemma init_primary_key_count_witness :
  declared abc_declared = true /\
  exists m',
    init abc_declared = Ok m' /\
    initialized m' = true /\
    List.find (flagged (store m')) (fields m') = Some (primaryKey m') /\
    pk_count m' = Nat.max 1 (pk_count abc_declared) /\
    (pk_count abc_declared <= 1 -> pk_count m' = 1).
Proof.
  split; [reflexivity|].
  apply (init_primary_key_count abc_declared). reflexivity.
Defined.

(** C2 fails as stated: with two declared claimants, [init] honours the
    first and leaves both flags set. *)
Lemma init_two_claimants :
  declared two_keys_declared = true /\
  exists m',
    init two_keys_declared = Ok m' /\
    primaryKey m' = Some 0 /\
    map is_primary_key (cells m') = [true; true] /\
    pk_count m' = 2.
Proof. split; [reflexivity|]. eexists. by split_and!. Qed.

(** ** saveBatch *)

Lemma initialized_parts (m : QModel) :
  initialized m = true ->
  forallb (valid (store m)) (fields m) = true /\
  exists p pk, primaryKey m = Some p /\ store m !! p = Some pk /\
               p < length (store m).
Proof.
  unfold initialized. intros [Hpk Hfs]%andb_prop. split; [done|].
  destruct (primaryKey m) as [p|]; [|discriminate].
  destruct (valid_cell _ _ Hpk) as [pk Hcell].
  apply bool_decide_eq_true in Hpk. eauto.
Qed.

Section SaveBatch.

Variable escapeIdentifier : QString -> IdentifierType -> QString.
Variable raw_null : QVariant -> bool -> bool.

(** What [saveBatch] does on a non-empty batch whose rows are long
    enough: one statement, the key overwritten, the batch kept. *)
Lemma saveBatch_run (r : Reply) (m : QModel) :
  initialized m = true -> batch m <> [] -> batch_fits m = true ->
  exists p pk,
    primaryKey m = Some p /\ store m !! p = Some pk /\
    saveBatch escapeIdentifier raw_null r m
    = Ok (with_store (<[p := setRawData raw_null (last_insert_id r) pk]> (store m)) m,
          Exec (insert_sql escapeIdentifier (db_table m)
                  (QStr.join (q ", ")
                     (map (fun x => escapeIdentifier (name x) FieldName)
                          (included m)))
                  (QStr.join (q ", ")
                     (replicate (length (batch m))
                        (q "(" ++ QStr.join (q ", ")
                                    (replicate (length (included m)) (q "?"))
                           ++ q ")"))))
               (concat (map (take (length (included m))) (batch m)))
          :: (if exec_ok r then [] else [Debug (q "Could not save object :")])).
Proof.
  intros Hinit Hne Hfits.
  destruct (initialized_parts _ Hinit) as [Hfs (p & pk & Hp & Hpk & Hlt)].
  exists p, pk. split; [done|]. split; [done|].
  unfold saveBatch.
  assert (length (batch m) <> 0) as HB by (by destruct (batch m)).
  rewrite (proj2 (Nat.eqb_neq _ _) HB).
  rewrite (columns_loop_closed _ _ _ _ _ _ Hfs). cbn [mbind result_bind fst snd].
  rewrite !joined_first, (placeholders_closed _ _ HB).
  rewrite (bind_rows_closed _ _ _ _ Hfs) by exact Hfits.
  cbn [mbind result_bind]. rewrite Hp. cbn [update]. rewrite Hpk.
  cbn [mbind result_bind app]. rewrite map_const_replicate.
  reflexivity.
Qed.

(** C1, as the code has it. On a non-empty batch [saveBatch] reports a
    failed execution on the debug channel (and reports nothing after a
    successful one); whether the execution succeeded or failed, it does
    not clear the batch, it leaves every other field untouched, and it
    sets the raw value of the primary key to the last inserted id of the
    connection. *)
Theorem saveBatch_sets_key_either_way (r : Reply) (m : QModel) :
  initialized m = true -> batch m <> [] -> batch_fits m = true ->
  exists st sql bound,
    saveBatch escapeIdentifier raw_null r m
    = Ok (with_store st m,
          Exec sql bound
          :: (if exec_ok r then [] else [Debug (q "Could not save object :")])) /\
    batch (with_store st m) = batch m /\
    fields (with_store st m) = fields m /\
    primaryKey (with_store st m) = primaryKey m /\
    value <$> cell st (primaryKey m) = Some (last_insert_id r) /\
    (forall f, f <> primaryKey m -> cell st f = cell (store m) f).
Proof.
  intros Hinit Hne Hfits.
  destruct (saveBatch_run r m Hinit Hne Hfits) as (p & pk & Hp & Hpk & Hrun).
  do 3 eexists. split; [exact Hrun|]. split_and!; try reflexivity.
  - rewrite Hp. rewrite cell_insert_same; [reflexivity|].
    by apply lookup_lt_Some in Hpk.
  - intros f Hf. rewrite Hp in Hf. by apply cell_insert_other.
Qed.

End SaveBatch.

Lemma saveBatch_sets_key_either_way_witness :
  initialized person_pending = true /\
  batch person_pending <> [] /\
  batch_fits person_pending = true /\
  exists st sql bound,
    saveBatch quoteIdentifier null_of_raw failed person_pending
    = Ok (with_store st person_pending,
          Exec sql bound
          :: (if exec_ok failed then [] else [Debug (q "Could not save object :")])) /\
    batch (with_store st person_pending) = batch person_pending /\
    fields (with_store st person_pending) = fields person_pending /\
    primaryKey (with_store st person_pending) = primaryKey person_pending /\
    value <$> cell st (primaryKey person_pending) = Some (last_insert_id failed) /\
    (forall f, f <> primaryKey person_pending ->
               cell st f = cell (store person_pending) f).
Proof.
  split; [reflexivity|]. split; [discriminate|]. split; [reflexivity|].
  apply (saveBatch_sets_key_either_way quoteIdentifier null_of_raw failed
                                       person_pending);
    [reflexivity|discriminate|reflexivity].
Defined.

(** C1 fails as stated: the key held 5; the statement fails; the key is
    overwritten all the same with what the connection returns as last
    inserted id, so the model is not left as it was. *)
Lemma saveBatch_failure_overwrites_key :
  initialized person_pending = true /\
  batch person_pending <> [] /\
  exec_ok failed = false /\
  value <$> cell (store person_pending) (primaryKey person_pending)
  = Some (VInt 5) /\
  exists m' ev,
    saveBatch quoteIdentifier null_of_raw failed person_pending = Ok (m', ev) /\
    value <$> cell (store m') (primaryKey m') = Some (last_insert_id failed) /\
    value <$> cell (store m') (primaryKey m') = Some Invalid /\
    m' <> person_pending.
Proof.
  split; [reflexivity|]. split; [discriminate|]. split; [reflexivity|].
  split; [reflexivity|]. do 2 eexists. split; [reflexivity|].
  split; [reflexivity|]. split; [reflexivity|]. discriminate.
Qed.

(** ** Lists of rows *)

Lemma concat_mjoin {A} (ls : list (list A)) : concat ls = mjoin ls.
Proof. induction ls as [|l ls IH]; [reflexivity|]. simpl. by rewrite IH. Qed.

Lemma uniform_Forall (F : nat) (rows : list (list QVariant)) :
  forallb (fun row : list QVariant => Nat.eqb (length row) F) rows = true ->
  Forall (fun row => length row = F) rows.
Proof.
  induction rows as [|row rows IH]; [constructor|].
  simpl. intros [Hrow Hrows]%andb_prop.
  constructor; [by apply Nat.eqb_eq|auto].
Qed.

Lemma uniform_take (F : nat) (rows : list (list QVariant)) :
  Forall (fun row => length row = F) rows -> map (take F) rows = rows.
Proof.
  induction 1 as [|row rows Hrow _ IH]; [reflexivity|].
  simpl. rewrite IH, take_ge by lia. reflexivity.
Qed.

Lemma uniform_leb (F : nat) (rows : list (list QVariant)) :
  Forall (fun row => length row = F) rows ->
  forallb (fun row : list QVariant => Nat.leb F (length row)) rows = true.
Proof.
  induction 1 as [|row rows Hrow _ IH]; [reflexivity|].
  simpl. rewrite IH, andb_true_r. apply Nat.leb_le. lia.
Qed.

Lemma uniform_concat_length (F : nat) (rows : list (list QVariant)) :
  Forall (fun row => length row = F) rows ->
  length (concat rows) = length rows * F.
Proof.
  induction 1 as [|row rows Hrow _ IH]; [reflexivity|].
  simpl. rewrite length_app, IH. lia.
Qed.

Lemma forallb_filter {A} (P Q : A -> bool) (l : list A) :
  forallb P l = true -> forallb P (List.filter Q l) = true.
Proof.
  induction l as [|x l IH]; [reflexivity|].
  simpl. intros [Hx Hl]%andb_prop.
  destruct (Q x); simpl; [rewrite Hx|]; auto.
Qed.

Lemma forallb_ext_eq {A} (P Q : A -> bool) (l : list A) :
  (forall x, P x = Q x) -> forallb P l = forallb Q l.
Proof. intros H. induction l as [|x l IH]; [reflexivity|]. simpl. by rewrite H, IH. Qed.

Lemma forallb_map_comp {A B} (f : A -> B) (P : B -> bool) (l : list A) :
  forallb P (map f l) = forallb (fun x => P (f x)) l.
Proof. induction l as [|x l IH]; [reflexivity|]. simpl. by rewrite IH. Qed.

Section Statements.

Variable escapeIdentifier : QString -> IdentifierType -> QString.
Variable raw_null : QVariant -> bool -> bool.

Local Abbreviation column := (fun x => escapeIdentifier (name x) FieldName).
Local Abbreviation assignment :=
  (fun x => escapeIdentifier (name x) FieldName ++ q "=?").

Lemma plain_table (m : QModel) :
  plain_identifiers escapeIdentifier m = true ->
  QStr.plain (escapeIdentifier (db_table m) TableName) = true.
Proof. unfold plain_identifiers. by intros [? _]%andb_prop. Qed.

Lemma plain_columns (m : QModel) (Q : QFieldPrivate -> bool) :
  plain_identifiers escapeIdentifier m = true ->
  forallb QStr.plain (map column (List.filter Q (cells m))) = true.
Proof.
  unfold plain_identifiers. intros [_ H]%andb_prop.
  rewrite forallb_map_comp. by apply forallb_filter.
Qed.

Lemma plain_assignments (l : list QFieldPrivate) :
  forallb QStr.plain (map column l) = true ->
  forallb QStr.plain (map assignment l) = true.
Proof.
  rewrite !forallb_map_comp. intros H.
  rewrite (forallb_ext_eq _ (fun x => QStr.plain (column x))); [exact H|].
  intros x. rewrite plain_app. apply andb_true_r.
Qed.

(** The INSERT template, filled: with marker-free identifiers the chained
    [arg] calls give the text one expects. *)
Lemma insert_sql_text (m : QModel) (B F : nat) :
  plain_identifiers escapeIdentifier m = true ->
  insert_sql escapeIdentifier (db_table m)
             (QStr.join (q ", ") (map column (included m)))
             (QStr.join (q ", ")
                (replicate B (q "(" ++ QStr.join (q ", ") (replicate F (q "?"))
                                ++ q ")")))
  = insert_text (escapeIdentifier (db_table m) TableName)
                (map column (included m)) B F.
Proof.
  intros Hplain. rewrite insert_sql_closed; [reflexivity|by apply plain_table|].
  apply plain_join; [reflexivity|]. by apply plain_columns.
Qed.

(** The UPDATE template, filled. *)
Lemma update_sql_text (m : QModel) (pk_name : QString) :
  QStr.plain (escapeIdentifier (db_table m) TableName) = true ->
  forallb QStr.plain (map column (modified_cells m)) = true ->
  update_sql escapeIdentifier (db_table m)
             (QStr.join (q ", ") (map assignment (modified_cells m))) pk_name
  = update_text (escapeIdentifier (db_table m) TableName)
                (map assignment (modified_cells m))
                (escapeIdentifier pk_name FieldName).
Proof.
  intros Ht Hcols. rewrite update_sql_closed; [reflexivity|exact Ht|].
  apply plain_join; [reflexivity|]. by apply plain_assignments.
Qed.

(** [saveBatch] on a batch whose rows all have one value per covered
    field binds the rows as they are. *)
Lemma saveBatch_uniform (r : Reply) (m : QModel) :
  initialized m = true ->
  batch m <> [] ->
  uniform_batch (length (included m)) m = true ->
  exists p pk,
    primaryKey m = Some p /\ store m !! p = Some pk /\
    saveBatch escapeIdentifier raw_null r m
    = Ok (with_store (<[p := setRawData raw_null (last_insert_id r) pk]> (store m)) m,
          Exec (insert_sql escapeIdentifier (db_table m)
                  (QStr.join (q ", ") (map column (included m)))
                  (QStr.join (q ", ")
                     (replicate (length (batch m))
                        (q "(" ++ QStr.join (q ", ")
                                    (replicate (length (included m)) (q "?"))
                           ++ q ")"))))
               (concat (batch m))
          :: (if exec_ok r then [] else [Debug (q "Could not save object :")])).
Proof.
  intros Hinit Hne Huni. apply uniform_Forall in Huni.
  destruct (saveBatch_run escapeIdentifier raw_null r m Hinit Hne)
    as (p & pk & Hp & Hpk & Hrun); [by apply uniform_leb|].
  exists p, pk. split; [done|]. split; [done|].
  by rewrite Hrun, (uniform_take _ _ Huni).
Qed.

(** C4. On a non-empty batch of [B] rows, each holding one value for each
    of the [F] fields an insert covers (every field but a null primary
    key), [saveBatch] issues exactly one statement, built from the INSERT
    template; the text put in place of its VALUES marker is [B]
    parenthesized groups of [F] placeholders, separated by commas with no
    trailing separator, and the text put in place of its column marker
    lists the [F] covered columns in field order. It binds the [B * F]
    values of the batch row by row: the value at position [k] of row [i]
    is bound at position [i * F + k]. With identifiers free of place
    markers the statement reads INSERT INTO table (columns) VALUES groups. *)
Theorem saveBatch_placeholder_arithmetic (r : Reply) (m : QModel) (B F : nat) :
  initialized m = true ->
  batch m <> [] ->
  length (batch m) = B ->
  length (included m) = F ->
  uniform_batch F m = true ->
  exists m' sql,
    saveBatch escapeIdentifier raw_null r m
    = Ok (m',
          Exec sql (concat (batch m))
          :: (if exec_ok r then [] else [Debug (q "Could not save object :")])) /\
    sql = QStr.arg
            (QStr.arg
               (QStr.arg (q "INSERT INTO %1 (%2) VALUES %3;")
                         (escapeIdentifier (db_table m) TableName))
               (QStr.join (q ", ") (map column (included m))))
            (QStr.join (q ", ")
               (replicate B
                  (q "(" ++ QStr.join (q ", ") (replicate F (q "?")) ++ q ")"))) /\
    length (map column (included m)) = F /\
    (plain_identifiers escapeIdentifier m = true ->
     sql = q "INSERT INTO " ++ escapeIdentifier (db_table m) TableName
             ++ q " (" ++ QStr.join (q ", ") (map column (included m))
             ++ q ") VALUES "
             ++ QStr.join (q ", ")
                  (replicate B
                     (q "(" ++ QStr.join (q ", ") (replicate F (q "?")) ++ q ")"))
             ++ q ";") /\
    length (concat (batch m)) = B * F /\
    (forall i row k v,
        batch m !! i = Some row -> row !! k = Some v ->
        concat (batch m) !! (i * F + k) = Some v).
Proof.
  intros Hinit Hne <- <- Huni.
  destruct (saveBatch_uniform r m Hinit Hne Huni) as (p & pk & _ & _ & Hrun).
  apply uniform_Forall in Huni.
  do 2 eexists. split; [exact Hrun|]. split; [reflexivity|].
  split; [apply length_map|]. split; [apply insert_sql_text|].
  split; [by apply uniform_concat_length|].
  intros i row k v Hrow Hv. rewrite concat_mjoin.
  apply (join_lookup_Some_same_length' _ _ _ _ _ Huni).
  - rewrite Forall_lookup in Huni. rewrite <- (Huni _ _ Hrow).
    by apply lookup_lt_Some in Hv.
  - eauto.
Qed.

(** ** addInBatch and save *)

Lemma addInBatch_closed (m : QModel) :
  initialized m = true ->
  addInBatch m = Ok (with_batch (batch m ++ [map value (included m)]) m).
Proof.
  intros [Hfs _]%initialized_parts. unfold addInBatch.
  by rewrite (snapshot_loop_closed _ _ _ Hfs).
Qed.

(** The update branch: the arguments of the template and the bound values
    in closed form. *)
Lemma save_update_run (r : Reply) (m : QModel) :
  initialized m = true ->
  exists pk,
    cell (store m) (primaryKey m) = Some pk /\
    save_update escapeIdentifier r m
    = Ok (m,
          Exec (update_sql escapeIdentifier (db_table m)
                           (QStr.join (q ", ") (map assignment (modified_cells m)))
                           (name pk))
               (map value (modified_cells m) ++ [value pk])
          :: (if exec_ok r then [] else [Debug (q "Could not update object :")])).
Proof.
  intros Hinit.
  destruct (initialized_parts _ Hinit) as [Hfs (p & pk & Hp & Hpk & _)].
  exists pk. rewrite Hp. split; [exact Hpk|].
  unfold save_update.
  rewrite (set_loop_closed _ _ _ _ _ Hfs), joined_first.
  cbn [mbind result_bind]. rewrite Hp. cbn [deref]. rewrite Hpk.
  cbn [mbind result_bind]. rewrite (modified_loop_closed _ _ _ Hfs).
  reflexivity.
Qed.

Lemma save_branch (forceInsert : bool) (r : Reply) (m : QModel) (pk : QFieldPrivate) :
  cell (store m) (primaryKey m) = Some pk ->
  save escapeIdentifier raw_null forceInsert r m
  = if forceInsert || is_null pk
    then save_insert escapeIdentifier raw_null r m
    else save_update escapeIdentifier r m.
Proof.
  intros Hpk. unfold save, save_inserts.
  destruct forceInsert; [reflexivity|].
  by rewrite (deref_cell _ _ _ Hpk).
Qed.

(** C6. [save(forceInsert)] takes the insert path exactly when
    [forceInsert] is true or the primary key is null: it clears the batch,
    snapshots the current values into it and flushes it with [saveBatch] as
    a batch of one row, which issues one statement built from the INSERT
    template. Otherwise it takes the update path: one statement built from
    the UPDATE template, and the model stays as it is. With identifiers
    free of place markers the two statements read INSERT INTO ... and
    UPDATE ... respectively. *)
Theorem save_insert_or_update (forceInsert : bool) (r : Reply) (m : QModel) :
  initialized m = true ->
  exists pk,
    cell (store m) (primaryKey m) = Some pk /\
    if forceInsert || is_null pk then
      let row := map value (included m) in
      addInBatch (clearBatch m) = Ok (with_batch [row] m) /\
      save escapeIdentifier raw_null forceInsert r m
      = saveBatch escapeIdentifier raw_null r (with_batch [row] m) /\
      exists m' sql,
        save escapeIdentifier raw_null forceInsert r m
        = Ok (m',
              Exec sql row
              :: (if exec_ok r then [] else [Debug (q "Could not save object :")])) /\
        batch m' = [row] /\
        sql = insert_sql escapeIdentifier (db_table m)
                (QStr.join (q ", ") (map column (included m)))
                (q "(" ++ QStr.join (q ", ")
                            (replicate (length (included m)) (q "?"))
                   ++ q ")") /\
        (plain_identifiers escapeIdentifier m = true ->
         sql = insert_text (escapeIdentifier (db_table m) TableName)
                           (map column (included m))
                           1 (length (included m)))
    else
      exists sql,
        save escapeIdentifier raw_null forceInsert r m
        = Ok (m,
              Exec sql (map value (modified_cells m) ++ [value pk])
              :: (if exec_ok r then [] else [Debug (q "Could not update object :")])) /\
        sql = update_sql escapeIdentifier (db_table m)
                (QStr.join (q ", ") (map assignment (modified_cells m)))
                (name pk) /\
        (plain_identifiers escapeIdentifier m = true ->
         sql = update_text (escapeIdentifier (db_table m) TableName)
                           (map assignment (modified_cells m))
                           (escapeIdentifier (name pk) FieldName)).
Proof.
  intros Hinit.
  destruct (initialized_parts _ Hinit) as [Hfs (p & pk & Hp & Hpk & _)].
  assert (cell (store m) (primaryKey m) = Some pk) as Hcell by (by rewrite Hp).
  exists pk. split; [exact Hcell|].
  rewrite (save_branch _ _ _ _ Hcell).
  destruct (forceInsert || is_null pk).
  - cbv zeta. set (row := map value (included m)).
    assert (addInBatch (clearBatch m) = Ok (with_batch [row] m)) as Hadd
        by (by rewrite addInBatch_closed).
    unfold save_insert. rewrite Hadd. cbn [mbind result_bind].
    split; [reflexivity|]. split; [reflexivity|].
    destruct (saveBatch_uniform r (with_batch [row] m))
      as (p' & pk' & _ & _ & Hrun); [done|done| |].
    { unfold uniform_batch. cbn [batch with_batch forallb].
      rewrite andb_true_r. apply Nat.eqb_eq. apply length_map. }
    do 2 eexists. split.
    { rewrite Hrun. cbn [batch with_batch length concat].
      by rewrite app_nil_r. }
    split; [reflexivity|]. split; [reflexivity|].
    intros Hplain. apply (insert_sql_text m 1 _ Hplain).
  - destruct (save_update_run r m Hinit) as (pk' & Hpk' & Hrun).
    rewrite Hcell in Hpk'. injection Hpk' as <-.
    eexists. split; [exact Hrun|]. split; [reflexivity|].
    intros Hplain. apply update_sql_text; [by apply plain_table|].
    by apply plain_columns.
Qed.

(** C7. On the update path ([save(false)] with a primary key that is not
    null) the text put in place of the SET marker of the UPDATE template
    lists exactly the fields whose modified flag is set, in declaration
    order; the bound values are the values of these fields in the same
    order, followed by the value of the primary key for the WHERE clause.
    With identifiers free of place markers the statement reads
    UPDATE table SET assignments WHERE key=?. *)
Theorem save_updates_modified_fields (r : Reply) (m : QModel) :
  initialized m = true ->
  pk_is_null m = false ->
  exists pk sql,
    cell (store m) (primaryKey m) = Some pk /\
    save escapeIdentifier raw_null false r m
    = Ok (m,
          Exec sql (map value (List.filter is_modified (cells m)) ++ [value pk])
          :: (if exec_ok r then [] else [Debug (q "Could not update object :")])) /\
    sql = QStr.arg
            (QStr.arg
               (QStr.arg (q "UPDATE %1 SET %2 WHERE %3=?;")
                         (escapeIdentifier (db_table m) TableName))
               (QStr.join (q ", ")
                  (map assignment (List.filter is_modified (cells m)))))
            (escapeIdentifier (name pk) FieldName) /\
    (plain_identifiers escapeIdentifier m = true ->
     sql = q "UPDATE " ++ escapeIdentifier (db_table m) TableName
             ++ q " SET "
             ++ QStr.join (q ", ")
                  (map assignment (List.filter is_modified (cells m)))
             ++ q " WHERE " ++ escapeIdentifier (name pk) FieldName
             ++ q "=?;").
Proof.
  intros Hinit Hnull.
  destruct (save_update_run r m Hinit) as (pk & Hpk & Hrun).
  exists pk. eexists. split; [exact Hpk|].
  rewrite (save_branch _ _ _ _ Hpk).
  unfold pk_is_null in Hnull. rewrite Hpk in Hnull. rewrite Hnull.
  split; [exact Hrun|]. split; [reflexivity|].
  intros Hplain. apply update_sql_text; [by apply plain_table|].
  by apply plain_columns.
Qed.

(** C9. [save(false)] on a model whose primary key is not null and none of
    whose fields is modified is not a no-op: it executes one statement built
    from the UPDATE template with nothing in place of the SET marker, and
    binds the primary key only. With a table name free of place markers
    the statement reads UPDATE table SET  WHERE key=?. *)
Theorem save_unmodified_empty_set (r : Reply) (m : QModel) :
  initialized m = true ->
  pk_is_null m = false ->
  List.filter is_modified (cells m) = [] ->
  exists pk sql,
    cell (store m) (primaryKey m) = Some pk /\
    save escapeIdentifier raw_null false r m
    = Ok (m,
          Exec sql [value pk]
          :: (if exec_ok r then [] else [Debug (q "Could not update object :")])) /\
    sql = QStr.arg
            (QStr.arg
               (QStr.arg (q "UPDATE %1 SET %2 WHERE %3=?;")
                         (escapeIdentifier (db_table m) TableName))
               [])
            (escapeIdentifier (name pk) FieldName) /\
    (QStr.plain (escapeIdentifier (db_table m) TableName) = true ->
     sql = q "UPDATE " ++ escapeIdentifier (db_table m) TableName
             ++ q " SET  WHERE " ++ escapeIdentifier (name pk) FieldName
             ++ q "=?;").
Proof.
  intros Hinit Hnull Hmod.
  destruct (save_update_run r m Hinit) as (pk & Hpk & Hrun).
  exists pk. eexists. split; [exact Hpk|].
  rewrite (save_branch _ _ _ _ Hpk).
  unfold pk_is_null in Hnull. rewrite Hpk in Hnull. rewrite Hnull.
  unfold modified_cells in Hrun. rewrite Hmod in Hrun.
  split; [exact Hrun|]. split; [reflexivity|].
  intros Ht. cbn [map QStr.join].
  by rewrite (update_sql_closed _ _ _ _ Ht).
Qed.

(** [remove] in closed form. *)
Lemma remove_run (r : Reply) (m : QModel) :
  initialized m = true ->
  exists p pk,
    primaryKey m = Some p /\ store m !! p = Some pk /\
    remove escapeIdentifier r m
    = Ok (with_store (<[p := setNull true pk]> (store m)) m,
          Exec (delete_sql escapeIdentifier (db_table m) (name pk)) [value pk]
          :: (if exec_ok r then [] else [Debug (q "Could not delete object :")])) /\
    (QStr.plain (escapeIdentifier (db_table m) TableName) = true ->
     delete_sql escapeIdentifier (db_table m) (name pk)
     = delete_text (escapeIdentifier (db_table m) TableName)
                   (escapeIdentifier (name pk) FieldName)).
Proof.
  intros Hinit.
  destruct (initialized_parts _ Hinit) as [_ (p & pk & Hp & Hpk & Hlt)].
  exists p, pk. split; [done|]. split; [done|]. split.
  - unfold remove. rewrite Hp. cbn [deref update]. by rewrite Hpk.
  - apply delete_sql_closed.
Qed.

(** C8. After [remove()] the primary key is null, whether the DELETE
    statement succeeded or failed. *)
Theorem remove_nulls_primary_key (r : Reply) (m : QModel) :
  initialized m = true ->
  exists m' ev,
    remove escapeIdentifier r m = Ok (m', ev) /\
    is_null <$> cell (store m') (primaryKey m') = Some true /\
    pk_is_null m' = true.
Proof.
  intros Hinit.
  destruct (initialized_parts _ Hinit) as [_ (p & pk & Hp & Hpk & Hlt)].
  unfold remove. rewrite Hp. cbn [deref update]. rewrite Hpk.
  cbn [mbind result_bind]. do 2 eexists. split; [reflexivity|].
  unfold pk_is_null. cbn [with_store store primaryKey]. rewrite Hp.
  by rewrite (cell_insert_same _ _ _ Hlt).
Qed.

End Statements.

(** ** What every operation keeps *)

Lemma same_shape_refl (m : QModel) : same_shape m m.
Proof. by repeat split. Qed.

Lemma same_shape_trans (m1 m2 m3 : QModel) :
  same_shape m1 m2 -> same_shape m2 m3 -> same_shape m1 m3.
Proof.
  intros (?&?&?&?) (?&?&?&?). repeat split; congruence.
Qed.

Lemma same_shape_initialized (m m' : QModel) :
  same_shape m m' -> initialized m = true -> initialized m' = true.
Proof.
  intros (Hf & Hpk & Hlen & _) Hinit. unfold initialized in *.
  rewrite Hf, Hpk.
  assert (forall f, valid (store m') f = valid (store m) f) as Hv.
  { intros [p|]; [|reflexivity]. unfold valid. by rewrite Hlen. }
  rewrite Hv, (forallb_ext_eq _ (valid (store m))); auto.
Qed.

Lemma update_length (g : QFieldPrivate -> QFieldPrivate) (f : QField)
      (st st' : Store) :
  update g f st = Ok st' -> length st' = length st.
Proof.
  unfold update. destruct f as [p|]; [|discriminate].
  destruct (st !! p); [|discriminate].
  intros [= <-]. apply length_insert.
Qed.

Lemma resetModified_loop_length (fs : list QField) (st st' : Store) :
  resetModified_loop fs st = Ok st' -> length st' = length st.
Proof.
  revert st. induction fs as [|f fs IH]; intros st; [by intros [= <-]|].
  cbn [resetModified_loop].
  destruct (update (setModified false) f st) as [st1|] eqn:Hup; [|discriminate].
  cbn [mbind result_bind]. intros H%IH.
  rewrite H. by apply update_length in Hup.
Qed.

(** Inversion of a successful monadic sequence, one bind at a time. *)
Ltac bind_inv H :=
  repeat match type of H with
         | mbind _ ?x = Ok _ =>
           let E := fresh "E" in
           destruct x eqn:E; cbn [mbind result_bind] in H; [|discriminate H]
         end.

Section Invariant.

Variable escapeIdentifier : QString -> IdentifierType -> QString.
Variable raw_null : QVariant -> bool -> bool.

Lemma with_store_shape (m : QModel) (st : Store) :
  length st = length (store m) -> same_shape m (with_store st m).
Proof. by repeat split. Qed.

Lemma saveBatch_shape (r : Reply) (m m' : QModel) (ev : list Event) :
  saveBatch escapeIdentifier raw_null r m = Ok (m', ev) -> same_shape m m'.
Proof.
  unfold saveBatch. destruct (Nat.eqb (length (batch m)) 0).
  - intros [= <- _]. apply same_shape_refl.
  - intros H. bind_inv H. injection H as <- _.
    apply with_store_shape. eauto using update_length.
Qed.

Lemma addInBatch_shape (m m' : QModel) :
  addInBatch m = Ok m' -> same_shape m m'.
Proof.
  unfold addInBatch. intros H. bind_inv H. injection H as <-.
  by repeat split.
Qed.

Lemma save_shape (forceInsert : bool) (r : Reply) (m m' : QModel)
      (ev : list Event) :
  save escapeIdentifier raw_null forceInsert r m = Ok (m', ev) -> same_shape m m'.
Proof.
  unfold save. intros H. bind_inv H. destruct a.
  - unfold save_insert in H. bind_inv H.
    apply addInBatch_shape in E0. apply saveBatch_shape in H.
    apply (same_shape_trans _ a); [|done].
    apply (same_shape_trans _ (clearBatch m)); [by repeat split|done].
  - unfold save_update in H. bind_inv H. injection H as <- _.
    apply same_shape_refl.
Qed.

Lemma step_shape (m m' : QModel) (o : Op) (ev : list Event) :
  step escapeIdentifier raw_null m o = Ok (m', ev) -> same_shape m m'.
Proof.
  destruct o; cbn [step]; intros H.
  - injection H as <- _. by repeat split.
  - bind_inv H. injection H as <- _. by apply addInBatch_shape.
  - by apply saveBatch_shape in H.
  - by apply save_shape in H.
  - unfold remove in H. bind_inv H. injection H as <- _.
    apply with_store_shape. eauto using update_length.
  - unfold resetModified in H. bind_inv H. injection H as <- _.
    bind_inv E. injection E as <-.
    apply with_store_shape. eauto using resetModified_loop_length.
  - unfold field_op in H. bind_inv H. injection H as <- _.
    apply with_store_shape. eauto using update_length.
  - unfold field_op in H. bind_inv H. injection H as <- _.
    apply with_store_shape. eauto using update_length.
Qed.

Lemma run_shape (ops : list Op) (m m' : QModel) (ev : list Event) :
  run escapeIdentifier raw_null m ops = Ok (m', ev) -> same_shape m m'.
Proof.
  revert m ev. induction ops as [|o ops IH]; intros m ev.
  - intros [= <- _]. apply same_shape_refl.
  - cbn [run]. intros H. bind_inv H. injection H as <- _.
    destruct a as [m1 ev1], a0 as [m2 ev2]. cbn [fst] in *.
    apply step_shape in E. apply IH in E0.
    by apply (same_shape_trans _ m1).
Qed.

(** Every model reached from [init] by public operations is initialized:
    the field collection and the primary key are those [init] left. *)
Lemma session_initialized (m0 m1 m : QModel) (ops : list Op) (ev : list Event) :
  declared m0 = true ->
  init m0 = Ok m1 ->
  run escapeIdentifier raw_null m1 ops = Ok (m, ev) ->
  initialized m = true /\ fields m = fields m1 /\ primaryKey m = primaryKey m1.
Proof.
  intros Hd Hinit Hrun. pose proof (run_shape _ _ _ _ Hrun) as Hs.
  split; [|by destruct Hs as (?&?&_)].
  apply (same_shape_initialized m1); [done|]. by apply (init_initialized m0).
Qed.

End Invariant.

(** ** The theorems at concrete models *)

Lemma saveBatch_placeholder_arithmetic_witness :
  initialized person_three_rows = true /\
  batch person_three_rows <> [] /\
  length (batch person_three_rows) = 3 /\
  length (included person_three_rows) = 1 /\
  uniform_batch 1 person_three_rows = true /\
  exists m' sql,
    saveBatch quoteIdentifier null_of_raw (succeeded 9) person_three_rows
    = Ok (m',
          Exec sql (concat (batch person_three_rows))
          :: (if exec_ok (succeeded 9) then []
              else [Debug (q "Could not save object :")])) /\
    sql = QStr.arg
            (QStr.arg
               (QStr.arg (q "INSERT INTO %1 (%2) VALUES %3;")
                         (quoteIdentifier (db_table person_three_rows) TableName))
               (QStr.join (q ", ")
                  (map (fun x => quoteIdentifier (name x) FieldName)
                       (included person_three_rows))))
            (QStr.join (q ", ")
               (replicate 3
                  (q "(" ++ QStr.join (q ", ") (replicate 1 (q "?")) ++ q ")"))) /\
    length (map (fun x => quoteIdentifier (name x) FieldName)
                (included person_three_rows)) = 1 /\
    (plain_identifiers quoteIdentifier person_three_rows = true ->
     sql = q "INSERT INTO " ++ quoteIdentifier (db_table person_three_rows) TableName
             ++ q " ("
             ++ QStr.join (q ", ")
                  (map (fun x => quoteIdentifier (name x) FieldName)
                       (included person_three_rows))
             ++ q ") VALUES "
             ++ QStr.join (q ", ")
                  (replicate 3
                     (q "(" ++ QStr.join (q ", ") (replicate 1 (q "?")) ++ q ")"))
             ++ q ";") /\
    length (concat (batch person_three_rows)) = 3 * 1 /\
    (forall i row k v,
        batch person_three_rows !! i = Some row -> row !! k = Some v ->
        concat (batch person_three_rows) !! (i * 1 + k) = Some v).
Proof.
  split; [reflexivity|]. split; [discriminate|]. split; [reflexivity|].
  split; [reflexivity|]. split; [reflexivity|].
  apply (saveBatch_placeholder_arithmetic quoteIdentifier null_of_raw
           (succeeded 9) person_three_rows 3 1);
    [reflexivity|discriminate|reflexivity|reflexivity|reflexivity].
Defined.

(** What the statement of that batch looks like. *)
Example three_rows_statement :
  exists m',
    saveBatch quoteIdentifier null_of_raw (succeeded 9) person_three_rows
    = Ok (m',
          [Exec (q "INSERT INTO " ++ quoteIdentifier (q "person") TableName
                   ++ q " (" ++ quoteIdentifier (q "name") FieldName
                   ++ q ") VALUES (?), (?), (?);")
                [VString (q "ann"); VString (q "bob"); VString (q "cy")]]).
Proof. eexists. reflexivity. Qed.

Lemma save_insert_or_update_witness :
  initialized person_three_rows = true /\
  pk_is_null person_three_rows = true /\
  exists pk,
    cell (store person_three_rows) (primaryKey person_three_rows) = Some pk /\
    if false || is_null pk then
      let row := map value (included person_three_rows) in
      addInBatch (clearBatch person_three_rows)
      = Ok (with_batch [row] person_three_rows) /\
      save quoteIdentifier null_of_raw false (succeeded 8) person_three_rows
      = saveBatch quoteIdentifier null_of_raw (succeeded 8)
                  (with_batch [row] person_three_rows) /\
      exists m' sql,
        save quoteIdentifier null_of_raw false (succeeded 8) person_three_rows
        = Ok (m',
              Exec sql row
              :: (if exec_ok (succeeded 8) then []
                  else [Debug (q "Could not save object :")])) /\
        batch m' = [row] /\
        sql = insert_sql quoteIdentifier (db_table person_three_rows)
                (QStr.join (q ", ")
                   (map (fun x => quoteIdentifier (name x) FieldName)
                        (included person_three_rows)))
                (q "(" ++ QStr.join (q ", ")
                            (replicate (length (included person_three_rows))
                                       (q "?"))
                   ++ q ")") /\
        (plain_identifiers quoteIdentifier person_three_rows = true ->
         sql = insert_text (quoteIdentifier (db_table person_three_rows) TableName)
                           (map (fun x => quoteIdentifier (name x) FieldName)
                                (included person_three_rows))
                           1 (length (included person_three_rows)))
    else
      exists sql,
        save quoteIdentifier null_of_raw false (succeeded 8) person_three_rows
        = Ok (person_three_rows,
              Exec sql (map value (modified_cells person_three_rows) ++ [value pk])
              :: (if exec_ok (succeeded 8) then []
                  else [Debug (q "Could not update object :")])) /\
        sql = update_sql quoteIdentifier (db_table person_three_rows)
                (QStr.join (q ", ")
                   (map (fun x => quoteIdentifier (name x) FieldName ++ q "=?")
                        (modified_cells person_three_rows)))
                (name pk) /\
        (plain_identifiers quoteIdentifier person_three_rows = true ->
         sql = update_text (quoteIdentifier (db_table person_three_rows) TableName)
                           (map (fun x => quoteIdentifier (name x) FieldName
                                            ++ q "=?")
                                (modified_cells person_three_rows))
                           (quoteIdentifier (name pk) FieldName)).
Proof.
  split; [reflexivity|]. split; [reflexivity|].
  apply (save_insert_or_update quoteIdentifier null_of_raw false (succeeded 8)
                               person_three_rows); reflexivity.
Defined.

(** Both branches at work: a fresh row is inserted by [save(false)], a
    persisted one is updated, and [save(true)] inserts it again. *)
Example save_branches :
  (exists m',
      save quoteIdentifier null_of_raw false (succeeded 8) person_three_rows
      = Ok (m',
            [Exec (q "INSERT INTO " ++ quoteIdentifier (q "person") TableName
                     ++ q " (" ++ quoteIdentifier (q "name") FieldName
                     ++ q ") VALUES (?);")
                  [VString (q "cy")]])) /\
  save quoteIdentifier null_of_raw false (succeeded 8) person_pending
  = Ok (person_pending,
        [Exec (q "UPDATE " ++ quoteIdentifier (q "person") TableName
                 ++ q " SET " ++ quoteIdentifier (q "name") FieldName
                 ++ q "=? WHERE " ++ quoteIdentifier (q "id") FieldName
                 ++ q "=?;")
              [VString (q "bob"); VInt 5]]) /\
  (exists m',
      save quoteIdentifier null_of_raw true (succeeded 8) person_pending
      = Ok (m',
            [Exec (q "INSERT INTO " ++ quoteIdentifier (q "person") TableName
                     ++ q " (" ++ quoteIdentifier (q "id") FieldName ++ q ", "
                     ++ quoteIdentifier (q "name") FieldName
                     ++ q ") VALUES (?, ?);")
                  [VInt 5; VString (q "bob")]])).
Proof. split; [eexists; reflexivity|]. split; [reflexivity|eexists; reflexivity]. Qed.

(** The example of the specification: A and C modified out of A, B, C. *)
Lemma save_updates_modified_fields_witness :
  initialized abc_modified = true /\
  pk_is_null abc_modified = false /\
  map name (cells abc_modified) = [q "k"; q "A"; q "B"; q "C"] /\
  map name (List.filter is_modified (cells abc_modified)) = [q "A"; q "C"] /\
  exists pk sql,
    cell (store abc_modified) (primaryKey abc_modified) = Some pk /\
    save quoteIdentifier null_of_raw false failed abc_modified
    = Ok (abc_modified,
          Exec sql (map value (List.filter is_modified (cells abc_modified))
                      ++ [value pk])
          :: (if exec_ok failed then []
              else [Debug (q "Could not update object :")])) /\
    sql = QStr.arg
            (QStr.arg
               (QStr.arg (q "UPDATE %1 SET %2 WHERE %3=?;")
                         (quoteIdentifier (db_table abc_modified) TableName))
               (QStr.join (q ", ")
                  (map (fun x => quoteIdentifier (name x) FieldName ++ q "=?")
                       (List.filter is_modified (cells abc_modified)))))
            (quoteIdentifier (name pk) FieldName) /\
    (plain_identifiers quoteIdentifier abc_modified = true ->
     sql = q "UPDATE " ++ quoteIdentifier (db_table abc_modified) TableName
             ++ q " SET "
             ++ QStr.join (q ", ")
                  (map (fun x => quoteIdentifier (name x) FieldName ++ q "=?")
                       (List.filter is_modified (cells abc_modified)))
             ++ q " WHERE " ++ quoteIdentifier (name pk) FieldName
             ++ q "=?;").
Proof.
  split; [reflexivity|]. split; [reflexivity|].
  split; [reflexivity|]. split; [reflexivity|].
  apply (save_updates_modified_fields quoteIdentifier null_of_raw failed
                                      abc_modified); reflexivity.
Defined.

Example abc_statement :
  save quoteIdentifier null_of_raw false (succeeded 0) abc_modified
  = Ok (abc_modified,
        [Exec (q "UPDATE " ++ quoteIdentifier (q "t") TableName
                 ++ q " SET " ++ quoteIdentifier (q "A") FieldName ++ q "=?, "
                 ++ quoteIdentifier (q "C") FieldName ++ q "=? WHERE "
                 ++ quoteIdentifier (q "k") FieldName ++ q "=?;")
              [VString (q "a"); VString (q "c"); VInt 7]]).
Proof. reflexivity. Qed.

Lemma save_unmodified_empty_set_witness :
  initialized abc_clean = true /\
  pk_is_null abc_clean = false /\
  List.filter is_modified (cells abc_clean) = [] /\
  exists pk sql,
    cell (store abc_clean) (primaryKey abc_clean) = Some pk /\
    save quoteIdentifier null_of_raw false (succeeded 0) abc_clean
    = Ok (abc_clean,
          Exec sql [value pk]
          :: (if exec_ok (succeeded 0) then []
              else [Debug (q "Could not update object :")])) /\
    sql = QStr.arg
            (QStr.arg
               (QStr.arg (q "UPDATE %1 SET %2 WHERE %3=?;")
                         (quoteIdentifier (db_table abc_clean) TableName))
               [])
            (quoteIdentifier (name pk) FieldName) /\
    (QStr.plain (quoteIdentifier (db_table abc_clean) TableName) = true ->
     sql = q "UPDATE " ++ quoteIdentifier (db_table abc_clean) TableName
             ++ q " SET  WHERE " ++ quoteIdentifier (name pk) FieldName
             ++ q "=?;").
Proof.
  split; [reflexivity|]. split; [reflexivity|]. split; [reflexivity|].
  apply (save_unmodified_empty_set quoteIdentifier null_of_raw (succeeded 0)
                                   abc_clean); reflexivity.
Defined.

Lemma remove_nulls_primary_key_witness :
  initialized person_pending = true /\
  pk_is_null person_pending = false /\
  exists m' ev,
    remove quoteIdentifier failed person_pending = Ok (m', ev) /\
    is_null <$> cell (store m') (primaryKey m') = Some true /\
    pk_is_null m' = true.
Proof.
  split; [reflexivity|]. split; [reflexivity|].
  apply (remove_nulls_primary_key quoteIdentifier failed person_pending).
  reflexivity.
Defined.

(** ** When the bind loop stays inside the rows *)

Lemma forallb_first_failure {A} (P : A -> bool) (l : list A) :
  forallb P l = false ->
  exists l1 x l2, l = l1 ++ x :: l2 /\ forallb P l1 = true /\ P x = false.
Proof.
  induction l as [|y l IH]; [discriminate|].
  simpl. destruct (P y) eqn:Hy.
  - intros (l1 & x & l2 & -> & H1 & Hx)%IH.
    exists (y :: l1), x, l2. simpl. by rewrite Hy, H1.
  - intros _. by exists [], y, l.
Qed.

Lemma bind_rows_short (st : Store) (fs : list QField)
      (rows1 : list (list QVariant)) (row : list QVariant)
      (rows2 : list (list QVariant)) (bound : list QVariant) :
  forallb (valid st) fs = true ->
  let n := length (List.filter (fun x => negb (skipped x)) (cells_of st fs)) in
  forallb (fun row : list QVariant => Nat.leb n (length row)) rows1 = true ->
  length row < n ->
  bind_rows st fs (rows1 ++ row :: rows2) bound
  = Fault (OutOfRange (length row) (length row)).
Proof.
  intros H n. revert bound.
  induction rows1 as [|r1 rows1 IH]; intros bound Hfit Hshort.
  - cbn [app bind_rows].
    rewrite (bind_row_short _ _ _ _ _ H); [reflexivity|lia|exact Hshort].
  - simpl in Hfit. apply andb_prop in Hfit as [Hr1 Hfit].
    apply Nat.leb_le in Hr1. cbn [app bind_rows].
    rewrite (bind_row_closed _ _ _ _ _ H) by (fold n; lia).
    cbn [mbind result_bind]. by apply IH.
Qed.

Section Bounds.

Variable escapeIdentifier : QString -> IdentifierType -> QString.
Variable raw_null : QVariant -> bool -> bool.

(** On an initialized model with a non-empty batch, [saveBatch] completes
    exactly when every row has a value for each field the insert covers
    now; otherwise its bind loop indexes the first shorter row at its
    size. *)
Lemma saveBatch_completes_iff (r : Reply) (m : QModel) :
  initialized m = true -> batch m <> [] ->
  (batch_fits m = true <->
   exists res, saveBatch escapeIdentifier raw_null r m = Ok res).
Proof.
  intros Hinit Hne. split.
  - intros Hfits.
    destruct (saveBatch_run escapeIdentifier raw_null r m Hinit Hne Hfits)
      as (p & pk & _ & _ & Hrun).
    eauto.
  - intros [res Hres]. destruct (batch_fits m) eqn:Hfits; [reflexivity|].
    apply forallb_first_failure in Hfits as (rows1 & row & rows2 & Hb & H1 & Hrow).
    apply Nat.leb_gt in Hrow.
    destruct (initialized_parts _ Hinit) as [Hfs _].
    unfold saveBatch in Hres.
    assert (length (batch m) <> 0) as HB by (by destruct (batch m)).
    rewrite (proj2 (Nat.eqb_neq _ _) HB) in Hres.
    rewrite (columns_loop_closed _ _ _ _ _ _ Hfs) in Hres.
    cbn [mbind result_bind] in Hres.
    rewrite Hb, (bind_rows_short _ _ _ _ _ _ Hfs H1 Hrow) in Hres.
    discriminate Hres.
Qed.

(** While the nullness of the key stays as it is, snapshots agree with
    the rows already in the batch. *)
Lemma addInBatch_keeps_uniform (m m' : QModel) :
  initialized m = true ->
  uniform_batch (length (included m)) m = true ->
  addInBatch m = Ok m' ->
  uniform_batch (length (included m')) m' = true.
Proof.
  intros Hinit Huni. rewrite (addInBatch_closed _ Hinit). intros [= <-].
  unfold uniform_batch in *. cbn [batch with_batch].
  change (included (with_batch (batch m ++ [map value (included m)]) m))
    with (included m).
  rewrite forallb_app, Huni. cbn [forallb].
  by rewrite length_map, Nat.eqb_refl.
Qed.

End Bounds.

(** ** Declaring fields *)

Lemma newModel_declared (tableName : QString) :
  declared (newModel tableName) = true.
Proof. reflexivity. Qed.

Lemma makeField_declared (k : FieldType) (nm : QString) (m : QModel) :
  declared m = true -> declared (fst (makeField k nm m)) = true.
Proof.
  intros [Hpk Hfs]%declared_parts. unfold declared, makeField.
  cbn [fst addField with_fields with_store primaryKey store fields].
  rewrite Hpk, forallb_app, (forallb_valid_app _ _ _ Hfs).
  cbn [isValid negb andb forallb valid]. rewrite andb_true_r.
  apply bool_decide_eq_true. rewrite length_app. simpl. lia.
Qed.

(** ** The batch across a change of the key's nullness *)

(** C3 at a failing sequence: a snapshot taken while the key is null has
    one value less than one taken after [saveBatch] has stored the last
    inserted id in the key, or more than one taken after [remove] has nulled
    it; [saveBatch] does not clear the batch, so both kinds sit in it side
    by side. *)
Theorem batch_rows_of_different_arity :
  (exists m ev,
      session person_declared [OpAddInBatch; OpSaveBatch (succeeded 1); OpAddInBatch]
      = Ok (m, ev) /\
      batch m = [[Invalid]; [VInt 1; Invalid]] /\
      map length (batch m) = [1; 2]) /\
  (forall esc raw_null r,
      exists m1 m ev,
        init person_declared = Ok m1 /\
        run esc raw_null m1 [OpSetNull 0 false; OpAddInBatch; OpRemove r; OpAddInBatch]
        = Ok (m, ev) /\
        map length (batch m) = [2; 1]).
Proof.
  split.
  - do 2 eexists. split; [reflexivity|]. by split.
  - intros esc raw_null r. do 3 eexists. split; [reflexivity|].
    split; [reflexivity|]. reflexivity.
Qed.

(** C10 at a failing sequence: the row was snapshotted while the key was
    null (one value); the bind loop of a later [saveBatch] runs with the
    key no longer null and asks the row for a second value. *)
Theorem bind_loop_reads_past_row :
  session person_declared
          [OpAddInBatch; OpSaveBatch (succeeded 1); OpSaveBatch (succeeded 2)]
  = Fault (OutOfRange 1 1) /\
  (forall esc raw_null r,
      exists m1,
        init person_declared = Ok m1 /\
        run esc raw_null m1 [OpAddInBatch; OpSetNull 0 false; OpSaveBatch r]
        = Fault (OutOfRange 1 1)).
Proof.
  split; [reflexivity|].
  intros esc raw_null r. eexists. split; reflexivity.
Qed.

(** * Further properties of the model *)

(** ** Declaring fields and initializing, continued *)

Lemma cells_of_snoc (st : Store) (fs : list QField) (f : QField) :
  cells_of st (fs ++ [f])
  = cells_of st fs ++ match cell st f with Some x => [x] | None => [] end.
Proof.
  induction fs as [|g fs IH]; simpl.
  - destruct (cell st f); reflexivity.
  - rewrite IH. by destruct (cell st g).
Qed.

Lemma cells_of_length (st : Store) (fs : list QField) :
  forallb (valid st) fs = true -> length (cells_of st fs) = length fs.
Proof.
  induction fs as [|f fs IH]; simpl; [reflexivity|].
  intros [Hf Hfs]%andb_prop.
  destruct (valid_cell _ _ Hf) as [x ->]. simpl. by rewrite IH.
Qed.

(** A factory appends a fresh handle to [fields]: the handle it returns is
    the one stored last, it is none of the handles already there, its cell
    is the new field, and the cells of the fields declared before are
    untouched. *)
Theorem makeField_appends_fresh_handle (k : FieldType) (nm : QString) (m : QModel) :
  forallb (valid (store m)) (fields m) = true ->
  let m' := fst (makeField k nm m) in
  let h := snd (makeField k nm m) in
  fields m' = fields m ++ [h] /\
  ~ In h (fields m) /\
  field (fieldsCount m) m' = Ok h /\
  fieldsCount m' = S (fieldsCount m) /\
  cell (store m') h = Some (new_field nm k) /\
  cells m' = cells m ++ [new_field nm k] /\
  primaryKey m' = primaryKey m /\
  batch m' = batch m.
Proof.
  intros Hfs. cbv zeta. unfold makeField, addField, fieldsCount, field.
  cbn [fst snd with_fields with_store fields store primaryKey batch].
  assert (cell (store m ++ [new_field nm k]) (Some (length (store m)))
          = Some (new_field nm k)) as Hcell.
  { unfold cell. apply (list_lookup_middle _ [] _ _ eq_refl). }
  split_and!; try reflexivity.
  - intros Hin. rewrite forallb_forall in Hfs. apply Hfs in Hin.
    unfold valid in Hin. apply bool_decide_eq_true in Hin. lia.
  - unfold at_. by rewrite (list_lookup_middle _ [] _ _ eq_refl).
  - rewrite length_app. simpl. lia.
  - exact Hcell.
  - unfold cells. cbn [store fields with_fields with_store].
    by rewrite cells_of_snoc, Hcell, cells_of_app.
Qed.

Lemma makeField_appends_fresh_handle_witness :
  forallb (valid (store person_declared)) (fields person_declared) = true /\
  let m' := fst (makeField IntField (q "age") person_declared) in
  let h := snd (makeField IntField (q "age") person_declared) in
  fields m' = fields person_declared ++ [h] /\
  ~ In h (fields person_declared) /\
  field (fieldsCount person_declared) m' = Ok h /\
  fieldsCount m' = S (fieldsCount person_declared) /\
  cell (store m') h = Some (new_field (q "age") IntField) /\
  cells m' = cells person_declared ++ [new_field (q "age") IntField] /\
  primaryKey m' = primaryKey person_declared /\
  batch m' = batch person_declared.
Proof.
  split; [reflexivity|].
  apply (makeField_appends_fresh_handle IntField (q "age") person_declared).
  reflexivity.
Defined.

(** With a declared key, [init] designates the first field that claims it
    and changes nothing else: no field is synthesized, the fields, their
    cells and the batch are as declared. *)
Theorem init_keeps_declared_key (m : QModel) (f : QField) :
  declared m = true ->
  List.find (flagged (store m)) (fields m) = Some f ->
  exists m',
    init m = Ok m' /\
    primaryKey m' = f /\
    flagged (store m') f = true /\
    fields m' = fields m /\
    store m' = store m /\
    batch m' = batch m /\
    fieldsCount m' = fieldsCount m.
Proof.
  intros Hd Hfind. destruct (init_found _ _ Hd Hfind) as [Hi _].
  exists (with_primaryKey f m). split; [exact Hi|].
  split_and!; try reflexivity.
  by apply find_some in Hfind as [_ ?].
Qed.

Lemma init_keeps_declared_key_witness :
  declared abc_declared = true /\
  List.find (flagged (store abc_declared)) (fields abc_declared) = Some (Some 0) /\
  exists m',
    init abc_declared = Ok m' /\
    primaryKey m' = Some 0 /\
    flagged (store m') (Some 0) = true /\
    fields m' = fields abc_declared /\
    store m' = store abc_declared /\
    batch m' = batch abc_declared /\
    fieldsCount m' = fieldsCount abc_declared.
Proof.
  split; [reflexivity|]. split; [reflexivity|].
  apply (init_keeps_declared_key abc_declared (Some 0)); reflexivity.
Defined.

(** Running [init] a second time changes nothing: the search finds the key
    the first run designated or synthesized, so no second [id] is made. *)
Theorem init_twice (m m' : QModel) :
  declared m = true -> init m = Ok m' -> init m' = Ok m'.
Proof.
  intros Hd Hinit. pose proof (declared_parts _ Hd) as [Hpk Hfs].
  destruct (List.find (flagged (store m)) (fields m)) as [f|] eqn:Hfind.
  - destruct (init_found _ _ Hd Hfind) as [Hi Hv].
    rewrite Hi in Hinit. injection Hinit as <-.
    unfold init. cbn [with_primaryKey store fields primaryKey].
    rewrite (init_scan_closed _ _ _ Hfs), Hfind. cbn [mbind result_bind].
    destruct f; [reflexivity|discriminate].
  - rewrite (init_synthesized _ Hd Hfind) in Hinit. injection Hinit as <-.
    unfold init. cbn [store fields primaryKey init_scan deref].
    rewrite (list_lookup_middle _ [] _ _ eq_refl).
    reflexivity.
Qed.

Lemma init_twice_witness :
  declared person_declared = true /\
  init person_declared = Ok person_initialized /\
  init person_initialized = Ok person_initialized.
Proof.
  split; [reflexivity|]. split; [reflexivity|].
  apply (init_twice person_declared person_initialized); reflexivity.
Defined.

(** ** Snapshots *)

Lemma filter_partition_length {A} (P : A -> bool) (l : list A) :
  length (List.filter (fun x => negb (P x)) l) + length (List.filter P l)
  = length l.
Proof.
  induction l as [|x l IH]; [reflexivity|].
  simpl. destruct (P x); simpl; lia.
Qed.

(** [addInBatch] appends exactly one row and touches nothing else: the row
    holds the current value of every field but the null primary keys, in
    field order, so its arity is the number of fields minus the number of
    null primary keys. *)
Theorem addInBatch_appends_snapshot (m : QModel) :
  initialized m = true ->
  exists row,
    addInBatch m = Ok (with_batch (batch m ++ [row]) m) /\
    row = map value (List.filter (fun x => negb (is_primary_key x && is_null x))
                                 (cells m)) /\
    length row
    + length (List.filter (fun x => is_primary_key x && is_null x) (cells m))
    = fieldsCount m.
Proof.
  intros Hinit. pose proof (initialized_parts _ Hinit) as [Hfs _].
  eexists. split; [by apply addInBatch_closed|]. split; [reflexivity|].
  rewrite length_map. unfold included, skipped.
  rewrite filter_partition_length. by apply cells_of_length.
Qed.

Lemma addInBatch_appends_snapshot_witness :
  initialized person_pending = true /\
  exists row,
    addInBatch person_pending
    = Ok (with_batch (batch person_pending ++ [row]) person_pending) /\
    row = map value (List.filter (fun x => negb (is_primary_key x && is_null x))
                                 (cells person_pending)) /\
    length row
    + length (List.filter (fun x => is_primary_key x && is_null x)
                          (cells person_pending))
    = fieldsCount person_pending.
Proof.
  split; [reflexivity|].
  apply (addInBatch_appends_snapshot person_pending). reflexivity.
Defined.

(** ** resetModified *)

Lemma valid_same_length (st st' : Store) (fs : list QField) :
  length st' = length st ->
  forallb (valid st') fs = forallb (valid st) fs.
Proof.
  intros Hlen. apply forallb_ext_eq. intros [p|]; [|reflexivity].
  unfold valid. by rewrite Hlen.
Qed.

Lemma resetModified_loop_ok (fs : list QField) (st : Store) :
  forallb (valid st) fs = true ->
  exists st', resetModified_loop fs st = Ok st'.
Proof.
  revert st. induction fs as [|f fs IH]; intros st H; [by exists st|].
  simpl in H. apply andb_prop in H as [Hf Hfs].
  destruct (valid_cell _ _ Hf) as [x Hx].
  destruct f as [p|]; [|discriminate]. simpl in Hx.
  cbn [resetModified_loop update]. rewrite Hx. cbn [mbind result_bind].
  apply IH. rewrite (valid_same_length st); [exact Hfs|apply length_insert].
Qed.

(** The store after the loop, cell by cell. *)
Lemma resetModified_loop_lookup (fs : list QField) (st st' : Store) (p : nat) :
  resetModified_loop fs st = Ok st' ->
  st' !! p = if bool_decide (Some p ∈ fs)
             then setModified false <$> st !! p
             else st !! p.
Proof.
  revert st. induction fs as [|f fs IH]; intros st.
  - intros [= <-]. reflexivity.
  - cbn [resetModified_loop]. unfold update.
    destruct f as [p0|]; [|discriminate].
    destruct (st !! p0) as [x|] eqn:Hx; [|discriminate].
    cbn [mbind result_bind]. intros H%IH. rewrite H. clear H.
    destruct (decide (p = p0)) as [->|Hne].
    + rewrite list_lookup_insert_eq by (by apply lookup_lt_Some in Hx).
      rewrite Hx, (bool_decide_eq_true_2 (Some p0 ∈ Some p0 :: fs))
        by apply list_elem_of_here.
      by destruct (bool_decide (Some p0 ∈ fs)).
    + rewrite list_lookup_insert_ne by done.
      destruct (bool_decide (Some p ∈ fs)) eqn:Hin.
      * apply bool_decide_eq_true in Hin.
        by rewrite (bool_decide_eq_true_2 (Some p ∈ Some p0 :: fs))
          by (by apply list_elem_of_further).
      * apply bool_decide_eq_false in Hin.
        rewrite (bool_decide_eq_false_2 (Some p ∈ Some p0 :: fs)); [done|].
        intros [?|?]%elem_of_cons; [congruence|done].
Qed.

Lemma cells_of_pointwise (g : QFieldPrivate -> QFieldPrivate) (st st' : Store)
      (fs : list QField) :
  (forall f, f ∈ fs -> cell st' f = g <$> cell st f) ->
  cells_of st' fs = map g (cells_of st fs).
Proof.
  induction fs as [|f fs IH]; intros H; [reflexivity|].
  cbn [cells_of]. rewrite (H f) by apply list_elem_of_here.
  rewrite IH by (intros; apply H; by apply list_elem_of_further).
  by destruct (cell st f).
Qed.

Lemma filter_modified_reset (l : list QFieldPrivate) :
  List.filter is_modified (map (setModified false) l) = [].
Proof. induction l as [|x l IH]; [reflexivity|]. simpl. exact IH. Qed.

(** [resetModified] in closed form: the store it leaves. *)
Lemma resetModified_run (m : QModel) :
  initialized m = true ->
  exists st',
    resetModified m = Ok (with_store st' m) /\
    resetModified_loop (fields m) (store m) = Ok st' /\
    cells (with_store st' m) = map (setModified false) (cells m).
Proof.
  intros Hinit. pose proof (initialized_parts _ Hinit) as [Hfs _].
  destruct (resetModified_loop_ok _ _ Hfs) as [st' Hloop].
  exists st'. unfold resetModified. rewrite Hloop. split; [reflexivity|].
  split; [reflexivity|].
  unfold cells. cbn [with_store store fields].
  apply cells_of_pointwise. intros [p|] Hin; [|reflexivity].
  unfold cell. rewrite (resetModified_loop_lookup _ _ _ p Hloop).
  by rewrite bool_decide_eq_true_2.
Qed.

(** After [resetModified] no field is modified, and nothing but the
    modified flags has changed: names, values, null and key flags of the
    fields, the field list, the primary key, the batch, and every cell that
    is not a field of the model. *)
Theorem resetModified_clears_every_flag (m : QModel) :
  initialized m = true ->
  exists m',
    resetModified m = Ok m' /\
    cells m' = map (setModified false) (cells m) /\
    List.filter is_modified (cells m') = [] /\
    fields m' = fields m /\
    primaryKey m' = primaryKey m /\
    batch m' = batch m /\
    (forall p, Some p ∉ fields m -> store m' !! p = store m !! p).
Proof.
  intros Hinit. destruct (resetModified_run _ Hinit) as (st' & Hrun & Hloop & Hcells).
  exists (with_store st' m). split; [exact Hrun|]. split; [exact Hcells|].
  split; [rewrite Hcells; apply filter_modified_reset|].
  split_and!; try reflexivity.
  intros p Hp. cbn [with_store store].
  rewrite (resetModified_loop_lookup _ _ _ p Hloop).
  by rewrite bool_decide_eq_false_2.
Qed.

Lemma resetModified_clears_every_flag_witness :
  initialized abc_modified = true /\
  map is_modified (cells abc_modified) = [false; true; false; true] /\
  exists m',
    resetModified abc_modified = Ok m' /\
    cells m' = map (setModified false) (cells abc_modified) /\
    List.filter is_modified (cells m') = [] /\
    fields m' = fields abc_modified /\
    primaryKey m' = primaryKey abc_modified /\
    batch m' = batch abc_modified /\
    (forall p, Some p ∉ fields abc_modified ->
               store m' !! p = store abc_modified !! p).
Proof.
  split; [reflexivity|]. split; [reflexivity|].
  apply (resetModified_clears_every_flag abc_modified). reflexivity.
Defined.

(** [resetModified] is idempotent: a second call leaves the model exactly
    as the first one did. *)
Theorem resetModified_idempotent (m m' : QModel) :
  initialized m = true ->
  resetModified m = Ok m' ->
  resetModified m' = Ok m'.
Proof.
  intros Hinit Hreset.
  destruct (resetModified_run _ Hinit) as (st' & Hrun & Hloop & _).
  rewrite Hrun in Hreset. injection Hreset as <-.
  pose proof (initialized_parts _ Hinit) as [Hfs _].
  destruct (resetModified_loop_ok (fields m) st') as [st'' Hloop'].
  { rewrite (valid_same_length (store m)); [exact Hfs|].
    by apply resetModified_loop_length in Hloop. }
  unfold resetModified. cbn [with_store store fields]. rewrite Hloop'.
  cbn [mbind result_bind]. unfold with_store.
  cbn [store db_table tableNumber fields primaryKey batch].
  assert (st'' = st') as ->; [|reflexivity].
  apply list_eq. intros p.
  rewrite (resetModified_loop_lookup _ _ _ p Hloop').
  rewrite (resetModified_loop_lookup _ _ _ p Hloop).
  destruct (bool_decide (Some p ∈ fields m)); [|reflexivity].
  by destruct (store m !! p).
Qed.

Lemma resetModified_idempotent_witness :
  initialized abc_modified = true /\
  resetModified abc_modified = Ok abc_reset /\
  resetModified abc_reset = Ok abc_reset.
Proof.
  split; [reflexivity|]. split; [reflexivity|].
  apply (resetModified_idempotent abc_modified abc_reset); reflexivity.
Defined.

(** ** How the operations compose *)

Lemma included_names_insert {B} (h : QString -> B) (y : QFieldPrivate)
      (st : Store) (p : nat) (x : QFieldPrivate) (fs : list QField) :
  st !! p = Some x -> name y = name x -> skipped y = skipped x ->
  map (fun c => h (name c))
      (List.filter (fun c => negb (skipped c)) (cells_of (<[p := y]> st) fs))
  = map (fun c => h (name c))
        (List.filter (fun c => negb (skipped c)) (cells_of st fs)).
Proof.
  intros Hx Hname Hskip. induction fs as [|f fs IH]; [reflexivity|].
  cbn [cells_of]. destruct (decide (f = Some p)) as [->|Hne].
  - rewrite cell_insert_same by (by apply lookup_lt_Some in Hx).
    unfold cell. rewrite Hx. cbn [List.filter]. rewrite Hskip.
    destruct (negb (skipped x)); cbn [map]; by rewrite ?Hname, IH.
  - rewrite cell_insert_other by done.
    destruct (cell st f) as [c|]; [|exact IH].
    cbn [List.filter]. destruct (negb (skipped c)); cbn [map]; by rewrite IH.
Qed.

Lemma skipped_in_fields (st : Store) (fs : list QField) (f : QField)
      (x : QFieldPrivate) :
  f ∈ fs -> cell st f = Some x -> skipped x = true ->
  1 <= length (List.filter skipped (cells_of st fs)).
Proof.
  intros Hin Hx Hskip. induction fs as [|g fs IH]; [by apply elem_of_nil in Hin|].
  cbn [cells_of]. apply elem_of_cons in Hin as [<-|Hin].
  - rewrite Hx. cbn [List.filter]. rewrite Hskip. simpl. lia.
  - destruct (cell st g) as [c|]; [|auto].
    cbn [List.filter]. specialize (IH Hin).
    destruct (skipped c); simpl; lia.
Qed.

Section Composition.

Variable escapeIdentifier : QString -> IdentifierType -> QString.
Variable raw_null : QVariant -> bool -> bool.

Local Abbreviation column := (fun x => escapeIdentifier (name x) FieldName).

(** [resetModified] followed by [save(false)] on a persisted row still
    executes a statement: an UPDATE with nothing in its SET clause, bound
    to the key alone. *)
Theorem save_after_resetModified (r : Reply) (m : QModel) :
  initialized m = true ->
  pk_is_null m = false ->
  exists m' pk,
    resetModified m = Ok m' /\
    cell (store m') (primaryKey m') = Some pk /\
    save escapeIdentifier raw_null false r m'
    = Ok (m',
          Exec (update_sql escapeIdentifier (db_table m) [] (name pk)) [value pk]
          :: (if exec_ok r then [] else [Debug (q "Could not update object :")])) /\
    (QStr.plain (escapeIdentifier (db_table m) TableName) = true ->
     update_sql escapeIdentifier (db_table m) [] (name pk)
     = q "UPDATE " ++ escapeIdentifier (db_table m) TableName
         ++ q " SET  WHERE " ++ escapeIdentifier (name pk) FieldName
         ++ q "=?;").
Proof.
  intros Hinit Hnull.
  destruct (resetModified_run _ Hinit) as (st' & Hrun & Hloop & Hcells).
  assert (initialized (with_store st' m) = true) as Hinit'.
  { apply (same_shape_initialized m); [|done].
    apply with_store_shape. by apply resetModified_loop_length in Hloop. }
  destruct (save_update_run escapeIdentifier r _ Hinit') as (pk & Hpk & Hupd).
  exists (with_store st' m), pk. split; [exact Hrun|]. split; [exact Hpk|].
  split.
  - rewrite (save_branch _ _ _ _ _ _ Hpk).
    assert (is_null pk = false) as ->.
    { destruct (initialized_parts _ Hinit) as [_ (p & pk0 & Hp & Hpk0 & _)].
      unfold pk_is_null in Hnull. rewrite Hp in Hnull. cbn [cell] in Hnull.
      rewrite Hpk0 in Hnull.
      cbn [with_store store primaryKey] in Hpk. rewrite Hp in Hpk.
      cbn [cell] in Hpk. rewrite (resetModified_loop_lookup _ _ _ p Hloop) in Hpk.
      rewrite Hpk0 in Hpk.
      destruct (bool_decide (Some p ∈ fields m)); injection Hpk as <-; exact Hnull. }
    cbn [orb]. rewrite Hupd. unfold modified_cells. rewrite Hcells.
    by rewrite filter_modified_reset.
  - intros Ht. by rewrite (update_sql_closed _ _ _ _ Ht).
Qed.


End Composition.

Lemma save_after_resetModified_witness :
  initialized abc_modified = true /\
  pk_is_null abc_modified = false /\
  exists m' pk,
    resetModified abc_modified = Ok m' /\
    cell (store m') (primaryKey m') = Some pk /\
    save quoteIdentifier null_of_raw false (succeeded 0) m'
    = Ok (m',
          Exec (update_sql quoteIdentifier (db_table abc_modified) [] (name pk))
               [value pk]
          :: (if exec_ok (succeeded 0) then []
              else [Debug (q "Could not update object :")])) /\
    (QStr.plain (quoteIdentifier (db_table abc_modified) TableName) = true ->
     update_sql quoteIdentifier (db_table abc_modified) [] (name pk)
     = q "UPDATE " ++ quoteIdentifier (db_table abc_modified) TableName
         ++ q " SET  WHERE " ++ quoteIdentifier (name pk) FieldName
         ++ q "=?;").
Proof.
  split; [reflexivity|]. split; [reflexivity|].
  apply (save_after_resetModified quoteIdentifier null_of_raw (succeeded 0)
                                  abc_modified); reflexivity.
Defined.


Section Persisting.

Variable escapeIdentifier : QString -> IdentifierType -> QString.
Variable raw_null : QVariant -> bool -> bool.

Local Abbreviation column := (fun x => escapeIdentifier (name x) FieldName).

(** The insert path of [save], in closed form. *)
Lemma save_insert_run (r : Reply) (m : QModel) :
  initialized m = true ->
  exists p pk,
    primaryKey m = Some p /\ store m !! p = Some pk /\
    save_insert escapeIdentifier raw_null r m
    = Ok (with_store (<[p := setRawData raw_null (last_insert_id r) pk]> (store m))
                     (with_batch [map value (included m)] m),
          Exec (insert_sql escapeIdentifier (db_table m)
                  (QStr.join (q ", ") (map column (included m)))
                  (q "(" ++ QStr.join (q ", ")
                              (replicate (length (included m)) (q "?"))
                     ++ q ")"))
               (map value (included m))
          :: (if exec_ok r then [] else [Debug (q "Could not save object :")])).
Proof.
  intros Hinit. set (row := map value (included m)).
  assert (addInBatch (clearBatch m) = Ok (with_batch [row] m)) as Hadd
      by (by rewrite addInBatch_closed).
  destruct (saveBatch_uniform escapeIdentifier raw_null r (with_batch [row] m))
    as (p & pk & Hp & Hpk & Hrun); [done|done| |].
  { unfold uniform_batch. cbn [batch with_batch forallb].
    rewrite andb_true_r. apply Nat.eqb_eq. apply length_map. }
  exists p, pk. split; [exact Hp|]. split; [exact Hpk|].
  unfold save_insert. rewrite Hadd. cbn [mbind result_bind]. rewrite Hrun.
  cbn [batch with_batch length concat]. by rewrite app_nil_r.
Qed.

(** After [remove], [save(false)] inserts the row again: the key is null,
    so the insert path is taken, and the key, if it is flagged as primary
    key, is left out of the column list and of the bound values. *)
Theorem save_after_remove (r r' : Reply) (m : QModel) :
  initialized m = true ->
  flagged (store m) (primaryKey m) = true ->
  exists m1 ev1 m2 pk1,
    remove escapeIdentifier r m = Ok (m1, ev1) /\
    cell (store m1) (primaryKey m1) = Some pk1 /\
    skipped pk1 = true /\
    save escapeIdentifier raw_null false r' m1
    = Ok (m2,
          Exec (insert_sql escapeIdentifier (db_table m)
                  (QStr.join (q ", ") (map column (included m1)))
                  (q "(" ++ QStr.join (q ", ")
                              (replicate (length (included m1)) (q "?"))
                     ++ q ")"))
               (map value (included m1))
          :: (if exec_ok r' then [] else [Debug (q "Could not save object :")])) /\
    Forall (fun x => skipped x = false) (included m1) /\
    (primaryKey m ∈ fields m -> length (included m1) < fieldsCount m).
Proof.
  intros Hinit Hflag.
  destruct (remove_run escapeIdentifier r m Hinit)
    as (p & pk & Hp & Hpk & Hrun & _).
  assert (p < length (store m)) as Hlt by (by apply lookup_lt_Some in Hpk).
  set (m1 := with_store (<[p := setNull true pk]> (store m)) m) in *.
  assert (initialized m1 = true) as Hinit1.
  { apply (same_shape_initialized m); [|done].
    apply with_store_shape. apply length_insert. }
  assert (cell (store m1) (primaryKey m1) = Some (setNull true pk)) as Hcell1.
  { unfold m1. cbn [with_store store primaryKey]. rewrite Hp.
    by apply cell_insert_same. }
  assert (skipped (setNull true pk) = true) as Hskip.
  { unfold flagged in Hflag. rewrite Hp in Hflag. cbn [cell] in Hflag.
    rewrite Hpk in Hflag. unfold skipped. cbn. by rewrite Hflag. }
  destruct (save_insert_run r' m1 Hinit1) as (p1 & pk1 & _ & _ & Hsave).
  do 3 eexists. exists (setNull true pk).
  split; [exact Hrun|]. split; [exact Hcell1|]. split; [exact Hskip|].
  split.
  - rewrite (save_branch _ _ _ _ _ _ Hcell1). cbn [setNull is_null orb].
    exact Hsave.
  - split.
    + apply Forall_forall. intros x Hx. apply list_elem_of_In in Hx.
      apply filter_In in Hx as [_ Hx]. by apply negb_true_iff.
    + intros Hin. unfold fieldsCount.
      pose proof (initialized_parts _ Hinit1) as [Hfs1 _].
      pose proof (cells_of_length _ _ Hfs1) as Hcl.
      change (length (fields m1)) with (length (fields m)) in Hcl.
      pose proof (filter_partition_length skipped (cells m1)) as Hpart.
      pose proof (skipped_in_fields (store m1) (fields m1) _ _ Hin Hcell1 Hskip).
      unfold included, cells in *. lia.
Qed.

(** Insert, update, delete: once [save] has stored the last inserted id
    in a key that was null, and the field contract makes a key holding it
    non-null, the next [save(false)] is an UPDATE whose last bound value is
    that id, and [remove] binds the same id. *)
Theorem insert_update_remove_same_key (r1 r2 r3 : Reply) (m : QModel) :
  initialized m = true ->
  pk_is_null m = true ->
  raw_null (last_insert_id r1) true = false ->
  exists m1 ev1,
    save escapeIdentifier raw_null false r1 m = Ok (m1, ev1) /\
    value <$> cell (store m1) (primaryKey m1) = Some (last_insert_id r1) /\
    pk_is_null m1 = false /\
    (exists sql2 bound2,
        save escapeIdentifier raw_null false r2 m1
        = Ok (m1,
              Exec sql2 (bound2 ++ [last_insert_id r1])
              :: (if exec_ok r2 then []
                  else [Debug (q "Could not update object :")]))) /\
    (exists m3 sql3,
        remove escapeIdentifier r3 m1
        = Ok (m3,
              Exec sql3 [last_insert_id r1]
              :: (if exec_ok r3 then []
                  else [Debug (q "Could not delete object :")]))).
Proof.
  intros Hinit Hnull Hraw.
  destruct (save_insert_run r1 m Hinit) as (p & pk & Hp & Hpk & Hsave).
  assert (p < length (store m)) as Hlt by (by apply lookup_lt_Some in Hpk).
  assert (is_null pk = true) as Hpknull.
  { unfold pk_is_null in Hnull. rewrite Hp in Hnull. cbn [cell] in Hnull.
    by rewrite Hpk in Hnull. }
  set (pk1 := setRawData raw_null (last_insert_id r1) pk) in *.
  set (m1 := with_store (<[p := pk1]> (store m))
                        (with_batch [map value (included m)] m)) in *.
  assert (cell (store m1) (primaryKey m1) = Some pk1) as Hcell1.
  { unfold m1. cbn [with_store with_batch store primaryKey]. rewrite Hp.
    by apply cell_insert_same. }
  assert (is_null pk1 = false) as Hnull1.
  { unfold pk1. cbn [setRawData is_null]. by rewrite Hpknull. }
  assert (initialized m1 = true) as Hinit1.
  { apply (same_shape_initialized m); [|done].
    repeat split. cbn [m1 with_store with_batch store]. apply length_insert. }
  exists m1. eexists. split.
  { rewrite (save_branch _ _ _ _ _ pk); [|by rewrite Hp].
    rewrite Hpknull. cbn [orb]. exact Hsave. }
  split; [by rewrite Hcell1|].
  split; [unfold pk_is_null; by rewrite Hcell1|].
  split.
  - destruct (save_update_run escapeIdentifier r2 m1 Hinit1) as (pk' & Hpk' & Hupd).
    rewrite Hcell1 in Hpk'. injection Hpk' as <-.
    do 2 eexists. rewrite (save_branch _ _ _ _ _ _ Hcell1), Hnull1.
    cbn [orb]. exact Hupd.
  - destruct (remove_run escapeIdentifier r3 m1 Hinit1)
      as (p' & pk' & Hp' & Hpk' & Hrun & _).
    assert (pk' = pk1) as ->.
    { rewrite Hp' in Hcell1. cbn [cell] in Hcell1. congruence. }
    do 2 eexists. exact Hrun.
Qed.

(** [saveBatch] keeps the batch: when storing the last inserted id leaves
    the nullness of the key as it was, a second [saveBatch] sends the very
    same statement with the very same bound values again. *)
Theorem saveBatch_twice_repeats_statement (r1 r2 : Reply) (m : QModel) :
  initialized m = true ->
  batch m <> [] ->
  batch_fits m = true ->
  raw_null (last_insert_id r1) (pk_is_null m) = pk_is_null m ->
  exists m1 m2 sql bound,
    saveBatch escapeIdentifier raw_null r1 m
    = Ok (m1,
          Exec sql bound
          :: (if exec_ok r1 then [] else [Debug (q "Could not save object :")])) /\
    batch m1 = batch m /\
    saveBatch escapeIdentifier raw_null r2 m1
    = Ok (m2,
          Exec sql bound
          :: (if exec_ok r2 then [] else [Debug (q "Could not save object :")])).
Proof.
  intros Hinit Hne Hfits Hraw.
  destruct (saveBatch_run escapeIdentifier raw_null r1 m Hinit Hne Hfits)
    as (p & pk & Hp & Hpk & Hrun).
  set (pk1 := setRawData raw_null (last_insert_id r1) pk) in *.
  set (m1 := with_store (<[p := pk1]> (store m)) m) in *.
  assert (is_null pk1 = is_null pk) as Hsame.
  { unfold pk_is_null in Hraw. rewrite Hp in Hraw. cbn [cell] in Hraw.
    rewrite Hpk in Hraw. exact Hraw. }
  assert (skipped pk1 = skipped pk) as Hskip.
  { unfold skipped. cbn [pk1 setRawData is_primary_key]. by rewrite Hsame. }
  assert (forall B (h : QString -> B),
             map (fun c => h (name c)) (included m1)
             = map (fun c => h (name c)) (included m)) as Hnames.
  { intros B h. unfold included, cells, m1. cbn [with_store store fields].
    apply (included_names_insert h pk1 (store m) p pk);
      [exact Hpk|reflexivity|exact Hskip]. }
  assert (length (included m1) = length (included m)) as Hlen.
  { rewrite <- (length_map (fun c => name c) (included m1)), (Hnames _ (fun n => n)).
    apply length_map. }
  assert (initialized m1 = true) as Hinit1.
  { apply (same_shape_initialized m); [|done].
    apply with_store_shape. apply length_insert. }
  destruct (saveBatch_run escapeIdentifier raw_null r2 m1 Hinit1)
    as (p' & pk' & _ & _ & Hrun'); [done| |].
  { unfold batch_fits in *. cbn [m1 with_store batch]. by rewrite Hlen. }
  do 4 eexists. split; [exact Hrun|]. split; [reflexivity|].
  rewrite Hrun'. rewrite Hlen, (Hnames _ (fun n => escapeIdentifier n FieldName)).
  reflexivity.
Qed.

(** [saveBatch] reads from each row only as many values as the insert
    covers fields now: of a row that is longer (snapshotted while the key
    was not null, flushed after the key became null) it binds the leading
    values and drops the rest, so [B] rows always bind [B * F] values. *)
Theorem saveBatch_binds_row_prefixes (r : Reply) (m : QModel) :
  initialized m = true ->
  batch m <> [] ->
  batch_fits m = true ->
  exists m' sql,
    saveBatch escapeIdentifier raw_null r m
    = Ok (m',
          Exec sql (concat (map (take (length (included m))) (batch m)))
          :: (if exec_ok r then [] else [Debug (q "Could not save object :")])) /\
    length (concat (map (take (length (included m))) (batch m)))
    = length (batch m) * length (included m).
Proof.
  intros Hinit Hne Hfits.
  destruct (saveBatch_run escapeIdentifier raw_null r m Hinit Hne Hfits)
    as (p & pk & _ & _ & Hrun).
  do 2 eexists. split; [exact Hrun|].
  unfold batch_fits in Hfits. clear Hrun Hne.
  induction (batch m) as [|row rows IH]; [reflexivity|].
  simpl in Hfits. apply andb_prop in Hfits as [Hrow Hrows].
  apply Nat.leb_le in Hrow. cbn [map concat length].
  rewrite length_app, (IH Hrows), length_take. lia.
Qed.

(** [saveBatch] never clears the batch and never executes more than one
    statement; on an empty batch it does nothing at all, not even on a
    model whose primary key is not set. *)
Theorem saveBatch_at_most_one_statement (r : Reply) (m m' : QModel)
        (ev : list Event) :
  saveBatch escapeIdentifier raw_null r m = Ok (m', ev) ->
  batch m' = batch m /\
  ((batch m = [] /\ m' = m /\ ev = []) \/
   (batch m <> [] /\
    exists sql bound,
      ev = Exec sql bound
           :: (if exec_ok r then [] else [Debug (q "Could not save object :")]))).
Proof.
  unfold saveBatch. destruct (batch m) as [|row rows] eqn:Hb.
  - intros [= <- <-]. split; [done|]. by left.
  - cbn [length Nat.eqb]. intros H. bind_inv H. injection H as <- <-.
    split; [by rewrite <- Hb|]. right. split; [done|]. eauto.
Qed.

End Persisting.

Lemma save_after_remove_witness :
  initialized person_pending = true /\
  flagged (store person_pending) (primaryKey person_pending) = true /\
  exists m1 ev1 m2 pk1,
    remove quoteIdentifier failed person_pending = Ok (m1, ev1) /\
    cell (store m1) (primaryKey m1) = Some pk1 /\
    skipped pk1 = true /\
    save quoteIdentifier null_of_raw false (succeeded 6) m1
    = Ok (m2,
          Exec (insert_sql quoteIdentifier (db_table person_pending)
                  (QStr.join (q ", ")
                     (map (fun x => quoteIdentifier (name x) FieldName)
                          (included m1)))
                  (q "(" ++ QStr.join (q ", ")
                              (replicate (length (included m1)) (q "?"))
                     ++ q ")"))
               (map value (included m1))
          :: (if exec_ok (succeeded 6) then []
              else [Debug (q "Could not save object :")])) /\
    Forall (fun x => skipped x = false) (included m1) /\
    (primaryKey person_pending ∈ fields person_pending ->
     length (included m1) < fieldsCount person_pending).
Proof.
  split; [reflexivity|]. split; [reflexivity|].
  apply (save_after_remove quoteIdentifier null_of_raw failed (succeeded 6)
                           person_pending); reflexivity.
Defined.

Lemma insert_update_remove_same_key_witness :
  initialized person_three_rows = true /\
  pk_is_null person_three_rows = true /\
  null_of_raw (last_insert_id (succeeded 5)) true = false /\
  exists m1 ev1,
    save quoteIdentifier null_of_raw false (succeeded 5) person_three_rows
    = Ok (m1, ev1) /\
    value <$> cell (store m1) (primaryKey m1)
    = Some (last_insert_id (succeeded 5)) /\
    pk_is_null m1 = false /\
    (exists sql2 bound2,
        save quoteIdentifier null_of_raw false failed m1
        = Ok (m1,
              Exec sql2 (bound2 ++ [last_insert_id (succeeded 5)])
              :: (if exec_ok failed then []
                  else [Debug (q "Could not update object :")]))) /\
    (exists m3 sql3,
        remove quoteIdentifier (succeeded 0) m1
        = Ok (m3,
              Exec sql3 [last_insert_id (succeeded 5)]
              :: (if exec_ok (succeeded 0) then []
                  else [Debug (q "Could not delete object :")]))).
Proof.
  split; [reflexivity|]. split; [reflexivity|]. split; [reflexivity|].
  apply (insert_update_remove_same_key quoteIdentifier null_of_raw
           (succeeded 5) failed (succeeded 0) person_three_rows); reflexivity.
Defined.

Lemma saveBatch_twice_repeats_statement_witness :
  initialized person_pending = true /\
  batch person_pending <> [] /\
  batch_fits person_pending = true /\
  null_of_raw (last_insert_id (succeeded 6)) (pk_is_null person_pending)
  = pk_is_null person_pending /\
  exists m1 m2 sql bound,
    saveBatch quoteIdentifier null_of_raw (succeeded 6) person_pending
    = Ok (m1,
          Exec sql bound
          :: (if exec_ok (succeeded 6) then []
              else [Debug (q "Could not save object :")])) /\
    batch m1 = batch person_pending /\
    saveBatch quoteIdentifier null_of_raw (succeeded 7) m1
    = Ok (m2,
          Exec sql bound
          :: (if exec_ok (succeeded 7) then []
              else [Debug (q "Could not save object :")])).
Proof.
  split; [reflexivity|]. split; [discriminate|]. split; [reflexivity|].
  split; [reflexivity|].
  apply (saveBatch_twice_repeats_statement quoteIdentifier null_of_raw
           (succeeded 6) (succeeded 7) person_pending);
    [reflexivity|discriminate|reflexivity|reflexivity].
Defined.

(** The row [5, bob] was snapshotted with the key; after [remove] the
    insert covers the name only, and the key's 5 is bound in its place. *)
Lemma saveBatch_binds_row_prefixes_witness :
  initialized person_removed = true /\
  batch person_removed <> [] /\
  batch_fits person_removed = true /\
  batch person_removed = [[VInt 5; VString (q "bob")]] /\
  map name (included person_removed) = [q "name"] /\
  concat (map (take (length (included person_removed))) (batch person_removed))
  = [VInt 5] /\
  exists m' sql,
    saveBatch quoteIdentifier null_of_raw (succeeded 6) person_removed
    = Ok (m',
          Exec sql (concat (map (take (length (included person_removed)))
                                (batch person_removed)))
          :: (if exec_ok (succeeded 6) then []
              else [Debug (q "Could not save object :")])) /\
    length (concat (map (take (length (included person_removed)))
                        (batch person_removed)))
    = length (batch person_removed) * length (included person_removed).
Proof.
  split; [reflexivity|]. split; [discriminate|]. split; [reflexivity|].
  split; [reflexivity|]. split; [reflexivity|]. split; [reflexivity|].
  apply (saveBatch_binds_row_prefixes quoteIdentifier null_of_raw (succeeded 6)
                                      person_removed);
    [reflexivity|discriminate|reflexivity].
Defined.

Lemma saveBatch_at_most_one_statement_witness :
  saveBatch quoteIdentifier null_of_raw failed (newModel (q "t"))
  = Ok (newModel (q "t"), []) /\
  batch (newModel (q "t")) = batch (newModel (q "t")) /\
  ((batch (newModel (q "t")) = [] /\
    newModel (q "t") = newModel (q "t") /\ @nil Event = []) \/
   (batch (newModel (q "t")) <> [] /\
    exists sql bound,
      [] = Exec sql bound
           :: (if exec_ok failed then []
               else [Debug (q "Could not save object :")]))).
Proof.
  split; [reflexivity|].
  apply (saveBatch_at_most_one_statement quoteIdentifier null_of_raw failed
                                         (newModel (q "t")) (newModel (q "t")) []).
  reflexivity.
Defined.

(** ** What the operations never do *)






Section Frozen.

Variable escapeIdentifier : QString -> IdentifierType -> QString.
Variable raw_null : QVariant -> bool -> bool.




(** On an initialized model no operation of the model meets an invalid
    handle, and [addInBatch], [save], [remove], [resetModified] and
    [clearBatch] always complete; [saveBatch] completes when every row of
    the batch has a value for each field the insert covers now, and a field
    setter when its index is below [fieldsCount]. The model stays
    initialized. *)
Theorem initialized_operations_complete (o : Op) (m : QModel) :
  initialized m = true ->
  match o with
  | OpSaveBatch _ => batch_fits m = true
  | OpSetData i _ | OpSetNull i _ => i < fieldsCount m
  | _ => True
  end ->
  exists m' ev,
    step escapeIdentifier raw_null m o = Ok (m', ev) /\ initialized m' = true.
Proof.
  intros Hinit Hpre.
  assert (exists m' ev, step escapeIdentifier raw_null m o = Ok (m', ev))
    as (m' & ev & Hstep).
  { pose proof (initialized_parts _ Hinit) as [Hfs (p & pk & Hp & Hpk & Hlt)].
    assert (cell (store m) (primaryKey m) = Some pk) as Hcell by (by rewrite Hp).
    assert (forall g i, i < fieldsCount m ->
                        exists res, field_op g i m = Ok res) as Hfield.
    { intros g i Hi. unfold field_op, at_.
      destruct (lookup_lt_is_Some_2 (fields m) i Hi) as [f Hf]. rewrite Hf.
      cbn [mbind result_bind].
      assert (valid (store m) f = true) as Hv.
      { rewrite forallb_forall in Hfs.
        apply Hfs, list_elem_of_In, (list_elem_of_lookup_2 _ i), Hf. }
      destruct (valid_cell _ _ Hv) as [x Hx].
      destruct f as [pf|]; [|discriminate]. cbn [cell] in Hx.
      cbn [update]. rewrite Hx. cbn [mbind result_bind]. eauto. }
    destruct o; cbn [step].
    - eauto.
    - rewrite (addInBatch_closed _ Hinit). cbn [mbind result_bind]. eauto.
    - destruct (batch m) as [|row rows] eqn:Hb.
      + unfold saveBatch. rewrite Hb. cbn. eauto.
      + destruct (saveBatch_run escapeIdentifier raw_null r m Hinit)
          as (? & ? & _ & _ & Hrun); [by rewrite Hb|exact Hpre|eauto].
    - rewrite (save_branch _ _ _ _ _ _ Hcell).
      destruct (forceInsert || is_null pk).
      + destruct (save_insert_run escapeIdentifier raw_null r m Hinit)
          as (? & ? & _ & _ & Hrun). eauto.
      + destruct (save_update_run escapeIdentifier r m Hinit)
          as (? & _ & Hrun). eauto.
    - destruct (remove_run escapeIdentifier r m Hinit)
        as (? & ? & _ & _ & Hrun & _). eauto.
    - destruct (resetModified_run _ Hinit) as (st' & Hrun & _).
      rewrite Hrun. cbn [mbind result_bind]. eauto.
    - destruct (Hfield (setData raw_null v) i Hpre) as [[m1 ev1] H1]. eauto.
    - destruct (Hfield (setNull b) i Hpre) as [[m1 ev1] H1]. eauto. }
  exists m', ev. split; [exact Hstep|].
  apply (same_shape_initialized m); [|exact Hinit].
  by apply step_shape in Hstep.
Qed.

End Frozen.


Lemma initialized_operations_complete_witness :
  initialized person_pending = true /\
  batch_fits person_pending = true /\
  exists m' ev,
    step quoteIdentifier null_of_raw person_pending (OpSaveBatch failed)
    = Ok (m', ev) /\
    initialized m' = true.
Proof.
  split; [reflexivity|]. split; [reflexivity|].
  apply (initialized_operations_complete quoteIdentifier null_of_raw
           (OpSaveBatch failed) person_pending); reflexivity.
Defined.

Lemma saveBatch_completes_iff_witness :
  initialized person_removed = true /\
  batch person_removed <> [] /\
  (batch_fits person_removed = true <->
   exists res,
     saveBatch quoteIdentifier null_of_raw failed person_removed = Ok res).
Proof.
  split; [reflexivity|]. split; [discriminate|].
  apply (saveBatch_completes_iff quoteIdentifier null_of_raw failed
                                 person_removed);
    [reflexivity|discriminate].
Defined.

(** ** createTableSql and getForeignKeys *)

Section SchemaFacts.

Variable escapeIdentifier : QString -> IdentifierType -> QString.
Variable sqlDescription : QFieldPrivate -> QString.
Variable isForeignKey : QFieldPrivate -> bool.

Local Abbreviation line := (column_line escapeIdentifier sqlDescription).

Lemma createTable_loop_closed (st : Store) (fs : list QField) (i size : nat)
      (field_list : QString) :
  forallb (valid st) fs = true ->
  i + length fs = size ->
  createTable_loop escapeIdentifier sqlDescription st fs i size field_list
  = Ok (field_list ++ QStr.join separator_line (map line (cells_of st fs))).
Proof.
  revert i field_list. induction fs as [|f fs IH]; intros i acc H Hsize.
  - simpl. by rewrite app_nil_r.
  - cbn [createTable_loop]. live_head H. cbn [length] in Hsize.
    destruct fs as [|g fs].
    + cbn [createTable_loop cells_of map QStr.join].
      cbn [length] in Hsize.
      replace (size - 1) with i by lia. rewrite Nat.eqb_refl. cbn [negb].
      unfold column_line. by rewrite <- !app_assoc.
    + assert (Nat.eqb i (size - 1) = false) as ->
          by (apply Nat.eqb_neq; cbn [length] in Hsize; lia).
      cbn [negb]. rewrite (IH (S i)); [|exact Hfs|cbn [length] in *; lia].
      pose proof Hfs as Hg. simpl in Hg. apply andb_prop in Hg as [Hg _].
      destruct (valid_cell _ _ Hg) as [y Hy].
      cbn [cells_of]. rewrite Hy. cbn [map QStr.join].
      unfold column_line, separator_line. by rewrite <- !app_assoc.
Qed.

Lemma createTable_template_closed (table body : QString) :
  QStr.plain (escapeIdentifier table TableName) = true ->
  QStr.arg (QStr.arg createTable_template (escapeIdentifier table TableName)) body
  = q "CREATE TABLE " ++ escapeIdentifier table TableName ++ q " ("
      ++ [newline] ++ body ++ [newline] ++ q ");".
Proof.
  intros Ht. set (t := escapeIdentifier table TableName) in *.
  assert (QStr.arg createTable_template t
          = q "CREATE TABLE " ++ t ++ q " (" ++ [newline] ++ q "%2"
              ++ [newline] ++ q ");") as -> by reflexivity.
  rewrite (arg_plain_prefix (q "CREATE TABLE ")) by reflexivity.
  rewrite (arg_plain_prefix t) by assumption.
  reflexivity.
Qed.

(** [createTableSql] emits one line per field, in field order, each made
    of four spaces, the escaped name, a space and the type description,
    with a comma and a line break between two lines and none after the
    last; a model without fields gives an empty body. With a table name
    free of place markers the statement reads CREATE TABLE table, an
    opening parenthesis, the lines and a closing parenthesis on lines of
    their own. *)
Theorem createTableSql_one_line_per_field (m : QModel) :
  forallb (valid (store m)) (fields m) = true ->
  exists sql,
    createTableSql escapeIdentifier sqlDescription m = Ok sql /\
    sql = QStr.arg
            (QStr.arg createTable_template
                      (escapeIdentifier (db_table m) TableName))
            (QStr.join (q "," ++ [newline]) (map line (cells m))) /\
    length (map line (cells m)) = fieldsCount m /\
    (QStr.plain (escapeIdentifier (db_table m) TableName) = true ->
     sql = q "CREATE TABLE " ++ escapeIdentifier (db_table m) TableName
             ++ q " (" ++ [newline]
             ++ QStr.join (q "," ++ [newline]) (map line (cells m))
             ++ [newline] ++ q ");").
Proof.
  intros Hfs. unfold createTableSql.
  rewrite (createTable_loop_closed _ _ _ _ _ Hfs) by reflexivity.
  cbn [mbind result_bind app]. eexists. split; [reflexivity|].
  split; [reflexivity|]. split.
  - rewrite length_map. by apply cells_of_length.
  - apply createTable_template_closed.
Qed.

(** After [init] has synthesized the key, the CREATE TABLE statement lists
    the [id] column first, before the declared columns. *)
Theorem createTableSql_after_init (m : QModel) :
  declared m = true ->
  forallb (fun f => negb (flagged (store m) f)) (fields m) = true ->
  exists m',
    init m = Ok m' /\
    createTableSql escapeIdentifier sqlDescription m'
    = Ok (QStr.arg
            (QStr.arg createTable_template
                      (escapeIdentifier (db_table m) TableName))
            (QStr.join (q "," ++ [newline])
               (line id_cell :: map line (cells m)))).
Proof.
  intros Hd Hnone. apply find_flagged_none_iff in Hnone.
  pose proof (declared_parts _ Hd) as [Hpk Hfs].
  eexists. split; [apply (init_synthesized _ Hd Hnone)|].
  unfold createTableSql. cbn [store fields db_table].
  rewrite createTable_loop_closed; [| |reflexivity].
  - cbn [mbind result_bind app]. by rewrite (cells_synthesized _ _ Hfs).
  - cbn [forallb]. rewrite (forallb_valid_app _ _ _ Hfs), andb_true_r.
    unfold valid. apply bool_decide_eq_true. rewrite length_app. simpl. lia.
Qed.




End SchemaFacts.

Lemma createTableSql_one_line_per_field_witness :
  forallb (valid (store abc_initialized)) (fields abc_initialized) = true /\
  exists sql,
    createTableSql quoteIdentifier describe_kind abc_initialized = Ok sql /\
    sql = QStr.arg
            (QStr.arg createTable_template
                      (quoteIdentifier (db_table abc_initialized) TableName))
            (QStr.join (q "," ++ [newline])
               (map (column_line quoteIdentifier describe_kind)
                    (cells abc_initialized))) /\
    length (map (column_line quoteIdentifier describe_kind)
                (cells abc_initialized))
    = fieldsCount abc_initialized /\
    (QStr.plain (quoteIdentifier (db_table abc_initialized) TableName) = true ->
     sql = q "CREATE TABLE " ++ quoteIdentifier (db_table abc_initialized) TableName
             ++ q " (" ++ [newline]
             ++ QStr.join (q "," ++ [newline])
                  (map (column_line quoteIdentifier describe_kind)
                       (cells abc_initialized))
             ++ [newline] ++ q ");").
Proof.
  split; [reflexivity|].
  apply (createTableSql_one_line_per_field quoteIdentifier describe_kind
                                           abc_initialized).
  reflexivity.
Defined.

Example person_table :
  createTableSql quoteIdentifier describe_kind person_initialized
  = Ok (q "CREATE TABLE " ++ quoteIdentifier (q "person") TableName ++ q " ("
          ++ [newline]
          ++ q "    " ++ quoteIdentifier (q "id") FieldName ++ q " INTEGER,"
          ++ [newline]
          ++ q "    " ++ quoteIdentifier (q "name") FieldName ++ q " TEXT"
          ++ [newline] ++ q ");") /\
  createTableSql quoteIdentifier describe_kind (newModel (q "t"))
  = Ok (q "CREATE TABLE " ++ quoteIdentifier (q "t") TableName ++ q " ("
          ++ [newline] ++ [newline] ++ q ");").
Proof. split; reflexivity. Qed.

Lemma createTableSql_after_init_witness :
  declared person_declared = true /\
  forallb (fun f => negb (flagged (store person_declared) f))
          (fields person_declared) = true /\
  exists m',
    init person_declared = Ok m' /\
    createTableSql quoteIdentifier describe_kind m'
    = Ok (QStr.arg
            (QStr.arg createTable_template
                      (quoteIdentifier (db_table person_declared) TableName))
            (QStr.join (q "," ++ [newline])
               (column_line quoteIdentifier describe_kind id_cell
                :: map (column_line quoteIdentifier describe_kind)
                       (cells person_declared)))).
Proof.
  split; [reflexivity|]. split; [reflexivity|].
  apply (createTableSql_after_init quoteIdentifier describe_kind
                                   person_declared); reflexivity.
Defined.

